(** * TSP grading harness: scoring engine and benchmark dataset pipeline

    A shallow embedding of [tools/tester.py] (the scorer and the grading
    harness) and of [tools/generate_data.py] (graph generation, reference
    solver, dataset staging), followed by the properties of the
    specification that were checked against it.

    Edge weights are numpy [float64] values.  They are modelled by the
    IEEE-754 binary64 instance of [SpecFloat] (53 bits of precision,
    maximal exponent 1024): every operation below rounds, overflows and
    produces NaN and infinities as the hardware does.  Python exceptions are
    explicit results. *)

From Stdlib Require Import ZArith List Bool String Lia.
From Stdlib Require Import Floats.SpecFloat.
From stdpp Require Import gmap strings list fin_maps pretty.
Import ListNotations.

Local Open Scope Z_scope.

(** ** Python exceptions *)

Inductive exn :=
  | IndexError
  | TypeError
  | ZeroDivisionError
  | ValueError (msg : string)
  | Exception (msg : string).

Inductive result (A : Type) :=
  | Ok (a : A)
  | Raise (e : exn).
Arguments Ok {A} a.
Arguments Raise {A} e.

#[global] Instance result_ret : MRet result := @Ok.
#[global] Instance result_bind : MBind result :=
  fun A B f m => match m with Ok a => f a | Raise e => Raise e end.

(** What a piece of foreign code (a submitted solver, a networkx routine)
    does when it is called: it returns, or it throws an exception whose
    [str] is [msg]. *)
Inductive outcome (A : Type) :=
  | Returns (a : A)
  | Throws (msg : string).
Arguments Returns {A} a.
Arguments Throws {A} msg.

(** ** binary64 *)

Module Float64.

Definition prec : Z := 53.
Definition emax : Z := 1024.

Abbreviation float := spec_float.

Definition add : float -> float -> float := SFadd prec emax.
Definition sub : float -> float -> float := SFsub prec emax.
Definition mul : float -> float -> float := SFmul prec emax.
Definition div : float -> float -> float := SFdiv prec emax.
Definition ltb : float -> float -> bool := SFltb.
Definition eqb : float -> float -> bool := SFeqb.
Definition leb : float -> float -> bool := SFleb.
Definition valid : float -> bool := valid_binary prec emax.

Definition inf : float := S754_infinity false.
Definition neg_inf : float := S754_infinity true.
Definition nan : float := S754_nan.
Definition zero : float := S754_zero false.

(** The float nearest to an integer, as [float(z)] gives it. *)
Definition of_Z (z : Z) : float := binary_normalize prec emax z 0 false.

Definition one : float := of_Z 1.

(** The largest finite binary64, about 1.8e308. *)
Definition max_float : float := SFmax_float prec emax.

(** [np.isnan], [np.isinf], [np.isfinite] *)
Definition isnan (x : float) : bool :=
  match x with S754_nan => true | _ => false end.
Definition isinf (x : float) : bool :=
  match x with S754_infinity _ => true | _ => false end.
Definition isfinite (x : float) : bool :=
  match x with S754_zero _ | S754_finite _ _ _ => true | _ => false end.

(** [np.nan_to_num(x, nan=.., posinf=.., neginf=..)] on a scalar *)
Definition nan_to_num (x nan_v posinf neginf : float) : float :=
  match x with
  | S754_nan => nan_v
  | S754_infinity false => posinf
  | S754_infinity true => neginf
  | _ => x
  end.

End Float64.
Import Float64.

(** ** Python numbers and sequences *)

(** The cost accumulator of [get_path_cost] starts as the Python integer
    [0], becomes a numpy scalar at the first [+=], and the early exit
    returns the Python float [np.inf]. *)
Inductive pynum :=
  | PyInt (z : Z)
  | PyFloat (x : float)
  | NpFloat (x : float).

Definition num_val (c : pynum) : float :=
  match c with
  | PyInt z => of_Z z
  | PyFloat x => x
  | NpFloat x => x
  end.

Definition is_np (c : pynum) : bool :=
  match c with NpFloat _ => true | _ => false end.

Definition is_zero (x : float) : bool :=
  match x with S754_zero _ => true | _ => false end.

(** [cost += weight] with a numpy [weight] *)
Definition py_iadd (cost : pynum) (weight : float) : pynum :=
  NpFloat (add (num_val cost) weight).

(** [a / b]: numpy scalars divide as IEEE does (with a warning at most);
    two plain Python numbers raise on a zero divisor. *)
Definition py_truediv (a b : pynum) : result pynum :=
  if is_np a || is_np b then Ok (NpFloat (div (num_val a) (num_val b)))
  else if is_zero (num_val b) then Raise ZeroDivisionError
  else Ok (PyFloat (div (num_val a) (num_val b))).

(** [a < b] on numbers *)
Definition py_lt (a b : pynum) : bool := ltb (num_val a) (num_val b).

(** [l[i]] on a Python sequence, negative indices counting from the end *)
Definition py_getitem {A : Type} (l : list A) (i : Z) : result A :=
  let n := Z.of_nat (length l) in
  let k := if i <? 0 then i + n else i in
  if (0 <=? k) && (k <? n) then
    match l !! Z.to_nat k with
    | Some x => Ok x
    | None => Raise IndexError
    end
  else Raise IndexError.

(** A tour as the harness receives it: a sequence of node indices, or
    [None]. *)
Abbreviation pytour := (option (list Z)).

(** The consecutive pairs [(path[idx], path[idx + 1])] for [idx] over
    [path[:-1]]. *)
Fixpoint edges (path : list Z) : list (Z * Z) :=
  match path with
  | i :: (j :: _) as rest => (i, j) :: edges rest
  | _ => []
  end.

Fixpoint str_join (sep : string) (l : list string) : string :=
  match l with
  | [] => ""
  | [s] => s
  | s :: rest => s +:+ sep +:+ str_join sep rest
  end.

(** ** numpy arrays *)

Module Np.

(** A square [float64] matrix of side [dim]. *)
Record ndarray := { dim : nat; entry : nat -> nat -> float }.

Definition of_rows (rows : list (list float)) : ndarray :=
  {| dim := length rows;
     entry := fun i j => nth j (nth i rows []) nan |}.

(** [np.asarray(a).squeeze().shape]: axes of length one are dropped, so
    a 1x1 matrix becomes a 0-dimensional array. *)
Definition squeezed_shape (a : ndarray) : list nat :=
  if (dim a =? 1)%nat then [] else [dim a; dim a].

(** [a.shape[0]] after the squeeze *)
Definition shape0 (a : ndarray) : result nat :=
  match squeezed_shape a with
  | n :: _ => Ok n
  | [] => Raise IndexError
  end.

(** An index along an axis of length [n]: [-n <= i < n], negative
    values counting from the end. *)
Definition norm_index (n : nat) (i : Z) : result nat :=
  if (0 <=? i) && (i <? Z.of_nat n) then Ok (Z.to_nat i)
  else if (- Z.of_nat n <=? i) && (i <? 0) then Ok (Z.to_nat (i + Z.of_nat n))
  else Raise IndexError.

(** [a[i, j]] after the squeeze *)
Definition getitem2 (a : ndarray) (i j : Z) : result float :=
  match squeezed_shape a with
  | [r; c] =>
      i' ← norm_index r i;
      j' ← norm_index c j;
      Ok (entry a i' j')
  | _ => Raise IndexError
  end.

End Np.
Import Np.

(** ** tools/tester.py *)

Module Tester.

Record TestResult := {
  name : string;
  percent_value : float;
  message : string
}.

(** *** PerformanceTestCase.get_path_cost *)

Fixpoint path_cost_loop (a : ndarray) (es : list (Z * Z)) (cost : pynum)
  : result pynum :=
  match es with
  | [] => Ok cost
  | (i, j) :: es' =>
      weight ← getitem2 a i j;
      if isnan weight then Ok (PyFloat inf)
      else path_cost_loop a es' (py_iadd cost weight)
  end.

Definition get_path_cost (a : ndarray) (path : pytour) : result pynum :=
  match path with
  | None => Raise TypeError
  | Some p => path_cost_loop a (edges p) (PyInt 0)
  end.

(** *** PerformanceTestCase.is_hamiltonian_cycle *)

Fixpoint finite_loop (a : ndarray) (es : list (Z * Z)) : result bool :=
  match es with
  | [] => Ok true
  | (i, j) :: es' =>
      weight ← getitem2 a i j;
      if isnan weight || isinf weight || negb (isfinite weight)
      then Ok false
      else finite_loop a es'
  end.

Definition is_hamiltonian_cycle (a : ndarray) (path : pytour)
  : result bool :=
  match path with
  | None => Raise TypeError
  | Some p =>
      n ← shape0 a;
      if negb (length p =? n + 1)%nat then Ok false else
      first ← py_getitem p 0;
      last ← py_getitem p (-1);
      if negb (first =? last) then Ok false else
      let unique_nodes : gset Z := list_to_set (removelast p) in
      if negb (size unique_nodes =? n)%nat then Ok false else
      finite_loop a (edges p)
  end.

(** *** PerformanceTestCase.compute_score

    The test case object carries the set [_warnings]; it is threaded
    through. *)

Definition not_hamiltonian_warning : string :=
  "The solution is not a Hamiltonian cycle.".

Definition compute_score (a : ndarray) (solution target_solution : pytour)
    (warnings : gset string) : result (float * gset string) :=
  ok ← is_hamiltonian_cycle a solution;
  if negb ok then Ok (zero, {[ not_hamiltonian_warning ]} ∪ warnings) else
  obj_cost ← get_path_cost a solution;
  target_cost ← get_path_cost a target_solution;
  normalized_cost ← py_truediv target_cost obj_cost;
  Ok (nan_to_num (num_val normalized_cost) one zero zero, warnings).

(** *** PerformanceTestCase.run *)

Section Run.

(** [np.mean] of the list of scores *)
Variable np_mean : list float -> float.

(** The class under test: constructing it on an adjacency matrix
    returns an object or throws; calling the object's solution method
    returns a tour or throws. *)
Variable cls_to_test : ndarray -> outcome (outcome pytour).

Variable test_name : string.
Variable expected_solutions : list pytour.

Fixpoint run_loop (i : nat) (constructor_inputs : list ndarray)
    (scores : list float) (warnings : gset string)
  : result (TestResult + list float * gset string) :=
  match constructor_inputs with
  | [] => Ok (inr (scores, warnings))
  | constructor_input :: rest =>
      target_solution ← py_getitem expected_solutions (Z.of_nat i);
      match cls_to_test constructor_input with
      | Throws e =>
          Ok (inl {| name := test_name; percent_value := zero;
                     message := "Error raised during instantiation: " +:+ e |})
      | Returns obj =>
          match obj with
          | Throws e =>
              Ok (inl {| name := test_name; percent_value := zero;
                         message := "Error raised during test: " +:+ e |})
          | Returns solution =>
              '(s, warnings') ←
                compute_score constructor_input solution target_solution warnings;
              run_loop (S i) rest (scores ++ [mul s (of_Z 100)]) warnings'
          end
      end
  end.

Definition run (constructor_inputs : list ndarray) (warnings : gset string)
  : result TestResult :=
  r ← run_loop 0 constructor_inputs [] warnings;
  match r with
  | inl early => Ok early
  | inr (scores, warnings') =>
      let message :=
        if decide (warnings' = ∅) then ""
        else "Warnings: " +:+ str_join " & " (elements warnings') in
      Ok {| name := test_name; percent_value := np_mean scores;
            message := message |}
  end.

End Run.

End Tester.
Import Tester.

(** ** tools/generate_data.py *)

(** The libraries the dataset generator calls into.  Their random draws and
    heuristics are left open: everything below holds whatever they
    return. *)
Class Externals := {
  (** [numpy.random.RandomState] and its draws; [rand rs n i j] is entry
      [(i, j)] of [rs.rand(n, n)], [choice rs len] the position of the
      element picked among [len] *)
  rng : Type;
  RandomState : nat -> rng;
  rand : rng -> nat -> nat -> nat -> float;
  randint : rng -> nat -> nat -> nat * rng;
  choice : rng -> nat -> nat * rng;
  np_hypot : float -> float -> float;
  (** [networkx.random_geometric_graph]: where node [v] of an [n]-node
      graph is placed for a seed, and whether two places are within the
      radius *)
  geometric_pos : nat -> nat -> nat -> float * float;
  within_radius : float * float -> float * float -> bool;
  (** the functions of [networkx...traveling_salesman], looked up by name,
      and what [traveling_salesman_problem] does with one of them on the
      graph of an adjacency matrix *)
  callable : Type;
  callable_name : callable -> string;
  nx_getattr : string -> option callable;
  nx_all : list string;
  traveling_salesman_problem : ndarray -> callable -> outcome (list Z)
}.

Module GenerateData.

(** [(best_path, best_cost, best_method)] *)
Abbreviation best := (option (list Z) * pynum * option callable)%type.

Section WithExternals.

Context `{ext : Externals}.

(** *** gen_complete_random_graph *)

Definition gen_complete_random_graph (n_nodes seed : nat) : ndarray :=
  let rn_state := RandomState seed in
  let adj := rand rn_state n_nodes in
  let adj := fun i j => add (adj i j) (adj j i) in
  let adj := fun i j => if (i =? j)%nat then inf else adj i j in
  {| dim := n_nodes; entry := adj |}.

(** *** gen_geometric_graph *)

(** An undirected [networkx.Graph] on the nodes [0 .. nodes-1]: the
    adjacency holds each edge in both directions, with its [weight]
    attribute if it has one. *)
Record nxgraph := {
  nodes : nat;
  pos : nat -> float * float;
  adj : gmap (nat * nat) (option float)
}.

Definition add_edge (g : nxgraph) (u v : nat) (weight : option float)
  : nxgraph :=
  {| nodes := nodes g; pos := pos g;
     adj := <[(v, u) := weight]> (<[(u, v) := weight]> (adj g)) |}.

(** [(i, j)] for [i] in [range(n)], [j] in [range(i + 1, n)] *)
Definition pairs (n : nat) : list (nat * nat) :=
  flat_map (fun i => map (fun j => (i, j)) (seq (S i) (n - S i))) (seq 0 n).

Definition random_geometric_graph (n seed : nat) : nxgraph :=
  let g0 := {| nodes := n; pos := geometric_pos n seed; adj := ∅ |} in
  fold_left
    (fun g '(u, v) =>
       if within_radius (pos g u) (pos g v) then add_edge g u v None else g)
    (pairs n) g0.

(** [nx.to_numpy_array(g, nonedge=..)]: an edge without a weight counts
    for 1. *)
Definition to_numpy_array (g : nxgraph) (nonedge : float) : ndarray :=
  {| dim := nodes g;
     entry := fun i j =>
       match adj g !! (i, j) with
       | Some (Some w) => w
       | Some None => one
       | None => nonedge
       end |}.

Definition gen_geometric_graph (n_nodes seed : nat) : ndarray :=
  let graph := random_geometric_graph n_nodes seed in
  let pos := pos graph in
  let graph :=
    fold_left
      (fun g '(i, j) =>
         let dist := np_hypot (sub (pos i).1 (pos j).1)
                              (sub (pos i).2 (pos j).2) in
         add_edge g i j (Some dist))
      (pairs (nodes graph)) graph in
  to_numpy_array graph inf.

(** *** gen_random_graph *)

Inductive graph_method :=
  | GraphMethodName (s : string)
  | GraphMethodCallable (f : nat -> nat -> outcome ndarray).

Definition gen_random_graph (n_nodes seed : nat) (method : graph_method)
  : result ndarray :=
  match method with
  | GraphMethodName s =>
      if decide (s = "random") then Ok (gen_complete_random_graph n_nodes seed)
      else if decide (s = "geometric") then Ok (gen_geometric_graph n_nodes seed)
      else Raise (ValueError ("Unknown method: " +:+ s))
  | GraphMethodCallable f =>
      match f n_nodes seed with
      | Returns adj => Ok adj
      | Throws e => Raise (Exception e)
      end
  end.

(** *** gen_best_solution *)

(** One entry of [methods]: a name, a callable, or some other object. *)
Inductive tsp_method :=
  | TspName (s : string)
  | TspCallable (f : callable)
  | TspOther.

Inductive tsp_methods :=
  | MethodsNone
  | MethodsStr (s : string)
  | MethodsSeq (l : list tsp_method).

Definition method_list (methods : tsp_methods) : list tsp_method :=
  match methods with
  | MethodsNone => map TspName nx_all
  | MethodsStr s => [TspName s]
  | MethodsSeq l => l
  end.

(** The body of the [try]: the callable that was tried, its cycle and the
    cycle's cost, or the exception. *)
Definition try_method (adjacency_matrix : ndarray) (method : tsp_method)
  : result (callable * list Z * pynum) :=
  func ← match method with
         | TspName s =>
             match nx_getattr s with
             | Some f => Ok f
             | None => Raise (Exception ("no attribute " +:+ s))
             end
         | TspCallable f => Ok f
         | TspOther => Raise (Exception "The method must be callable.")
         end;
  cycle ← match traveling_salesman_problem adjacency_matrix func with
          | Returns c => Ok c
          | Throws e => Raise (Exception e)
          end;
  cost ← get_path_cost adjacency_matrix (Some cycle);
  Ok (func, cycle, cost).

Definition best_step (adjacency_matrix : ndarray) (b : best)
    (method : tsp_method) : best :=
  let '(best_path, best_cost, best_method) := b in
  match try_method adjacency_matrix method with
  | Ok (func, cycle, cost) =>
      if py_lt cost best_cost then (Some cycle, cost, Some func) else b
  | Raise _ => b
  end.

Definition gen_best_solution (adjacency_matrix : ndarray)
    (methods : tsp_methods) : best :=
  fold_left (best_step adjacency_matrix) (method_list methods)
            (None, PyFloat inf, None).

(** *** gen_datum *)

Record datum := {
  adjacency_matrix : ndarray;
  best_path : option (list Z);
  path_cost : pynum;
  datum_seed : nat;
  graph_init_method : graph_method;
  datum_tsp_method : string
}.

(** A directory: file name to pickled content. *)
Abbreviation directory := (gmap string datum).

(** [save_path] is the name of the file inside its folder, a folder that
    [os.makedirs] creates if need be, as for the paths inside [temp/] that
    [gen_dataset] passes.  A path without a folder part, on which
    [os.makedirs] raises, has no counterpart here. *)
Definition gen_datum (n_nodes seed : nat) (graph_init_method : graph_method)
    (tsp_method : tsp_methods) (save_path : option string) (fs : directory)
  : result (datum * directory) :=
  adjacency_matrix ← gen_random_graph n_nodes seed graph_init_method;
  let '(cycle, cost, mth) := gen_best_solution adjacency_matrix tsp_method in
  let d := {| adjacency_matrix := adjacency_matrix;
              best_path := cycle;
              path_cost := cost;
              datum_seed := seed;
              graph_init_method := graph_init_method;
              datum_tsp_method :=
                match mth with
                | Some f => callable_name f
                | None => "None"
                end |} in
  match save_path with
  | Some p => Ok (d, <[p := d]> fs)
  | None => Ok (d, fs)
  end.

(** *** gather_all_data_from_temp_folder *)

Definition gather_all_data_from_temp_folder (temp_folder : directory)
  : list datum :=
  (map_to_list temp_folder).*2.

(** *** gen_dataset *)

Definition staging_name (k : nat) : string := pretty k +:+ ".pkl".

(** The argument tuples of the comprehension, drawn in order from one
    generator. *)
Fixpoint draw_args (rn_state : rng) (n_nodes_range : nat * nat)
    (gen_methods : list graph_method) (tsp_meths : tsp_methods)
    (temp_start_idx : nat) (indices : list nat)
  : result (list (nat * nat * graph_method * tsp_methods * string)) :=
  match indices with
  | [] => Ok []
  | i :: rest =>
      let '(low, high) := n_nodes_range in
      if (high <=? low)%nat then Raise (ValueError "low >= high") else
      let '(n_nodes, rn_state) := randint rn_state low high in
      let '(k, rn_state) := choice rn_state (length gen_methods) in
      match gen_methods !! k with
      | None => Raise (ValueError "a must be non-empty")
      | Some method =>
          args ← draw_args rn_state n_nodes_range gen_methods tsp_meths
                   temp_start_idx rest;
          Ok ((n_nodes, i, method, tsp_meths,
               staging_name (i + temp_start_idx)) :: args)
      end
  end.

(** [apply_func_multiprocess(gen_datum, args)]: every tuple is one unit of
    work; the units write distinct files, here one after the other. *)
Fixpoint apply_gen_datum
    (args : list (nat * nat * graph_method * tsp_methods * string))
    (fs : directory) : result (list datum * directory) :=
  match args with
  | [] => Ok ([], fs)
  | (n_nodes, seed, method, meths, path) :: rest =>
      '(d, fs) ← gen_datum n_nodes seed method meths (Some path) fs;
      '(ds, fs) ← apply_gen_datum rest fs;
      Ok (d :: ds, fs)
  end.

Definition gen_dataset (n_data : nat) (n_nodes_range : nat * nat)
    (gen_methods : list graph_method) (tsp_meths : tsp_methods) (seed : nat)
    (rm_temp_folder : bool) (temp_folder : directory)
  : result (list datum * directory) :=
  let temp_folder := if rm_temp_folder then ∅ else temp_folder in
  let temp_start_idx := size temp_folder in
  let rn_state := RandomState seed in
  args ← draw_args rn_state n_nodes_range gen_methods tsp_meths
           temp_start_idx (seq 0 n_data);
  '(_, temp_folder) ← apply_gen_datum args temp_folder;
  Ok (gather_all_data_from_temp_folder temp_folder, temp_folder).

End WithExternals.

Abbreviation directory := (gmap string datum).

End GenerateData.
Import GenerateData.

(** ** Vocabulary of the properties *)

(** The weights read along a list of edges, in order, when every lookup
    succeeds. *)
Fixpoint traversed (a : ndarray) (es : list (Z * Z)) : result (list float) :=
  match es with
  | [] => Ok []
  | (i, j) :: es' =>
      w ← getitem2 a i j;
      ws ← traversed a es';
      Ok (w :: ws)
  end.

(** The left-to-right binary64 sum, from 0. *)
Definition fsum (ws : list float) : float := fold_left add ws zero.

(** What the accumulator holds after adding [ws]: still the integer 0 if
    nothing was added. *)
Definition sum_cost (ws : list float) : pynum :=
  match ws with
  | [] => PyInt 0
  | _ => NpFloat (fsum ws)
  end.

Definition distinct_count (l : list Z) : nat := length (remove_dups l).

(** Scenario A of the specification: three nodes, weights 1, 2, 3. *)
Definition scenario_graph : ndarray :=
  of_rows [ [inf; of_Z 1; of_Z 2];
            [of_Z 1; inf; of_Z 3];
            [of_Z 2; of_Z 3; inf] ].

(** The three checks of [is_hamiltonian_cycle] that do not read the
    graph, in the words of the specification: length [n + 1], same first
    and last entry, [n] distinct values among the first [n] entries. *)
Definition shape_ok (n : nat) (tour : list Z) : bool :=
  (length tour =? n + 1)%nat
  && bool_decide (head tour = last tour)
  && (distinct_count (take n tour) =? n)%nat.

(** A single node whose only weight is NaN. *)
Definition one_node_graph : ndarray := of_rows [ [nan] ].

(** Scenario A with the edge between nodes 1 and 2 undefined. *)
Definition nan_edge_graph : ndarray :=
  of_rows [ [inf; of_Z 1; of_Z 2];
            [of_Z 1; inf; nan];
            [of_Z 2; nan; inf] ].

(** Four nodes, every edge of weight 1, no self-loop. *)
Definition unit_graph4 : ndarray :=
  of_rows [ [inf; of_Z 1; of_Z 1; of_Z 1];
            [of_Z 1; inf; of_Z 1; of_Z 1];
            [of_Z 1; of_Z 1; inf; of_Z 1];
            [of_Z 1; of_Z 1; of_Z 1; inf] ].

(** The score as the specification words it: the ratio of the reference
    cost to the candidate cost, NaN replaced by 1.0 and both infinities by
    0.0. *)
Definition score_of (reference_cost candidate_cost : float) : float :=
  nan_to_num (div reference_cost candidate_cost) one zero zero.

(** Four nodes on a ring of free edges; the two chords cost 1. *)
Definition free_ring_graph : ndarray :=
  of_rows [ [inf; zero; of_Z 1; zero];
            [zero; inf; zero; of_Z 1];
            [of_Z 1; zero; inf; zero];
            [zero; of_Z 1; zero; inf] ].

(** Three nodes, every edge as heavy as a binary64 can be. *)
Definition heavy_graph : ndarray :=
  of_rows [ [inf; max_float; max_float];
            [max_float; inf; max_float];
            [max_float; max_float; inf] ].

(** A submitted class that only copes with three nodes: it answers
    Scenario A's tour there and fails in its solution method elsewhere. *)
Definition three_node_solver (a : ndarray) : outcome (outcome pytour) :=
  if (dim a =? 3)%nat then Returns (Returns (Some [0; 1; 2; 0]))
  else Returns (Throws "list index out of range").

(** Stand-ins for the libraries, to run the generator on: a counter for
    the random state, nodes placed on a line, and two heuristics that walk
    the nodes in increasing and in decreasing order. *)
Definition forward_tour (n : nat) : list Z :=
  map Z.of_nat (seq 0 n) ++ [0].

Definition backward_tour (n : nat) : list Z :=
  0 :: map Z.of_nat (rev (seq 1 (n - 1))) ++ [0].

#[local] Instance sample_externals : Externals := {|
  rng := nat;
  RandomState := fun seed => seed;
  rand := fun rs n i j => of_Z (Z.of_nat (1 + rs + i + 2 * j));
  randint := fun rs low high => ((low + rs mod (high - low))%nat, S rs);
  choice := fun rs len => ((rs mod len)%nat, S rs);
  np_hypot := fun x y => add (SFabs x) (SFabs y);
  geometric_pos := fun n seed v => (of_Z (Z.of_nat (seed + v)), zero);
  within_radius := fun p q => ltb (SFabs (sub p.1 q.1)) (of_Z 2);
  callable := string;
  callable_name := fun f => f;
  nx_getattr := fun s =>
    if decide (s = "christofides") then Some s
    else if decide (s = "greedy_tsp") then Some s
    else None;
  nx_all := ["christofides"; "greedy_tsp"];
  traveling_salesman_problem := fun a f =>
    if decide (f = "christofides") then Returns (forward_tour (dim a))
    else if decide (f = "greedy_tsp") then Returns (backward_tour (dim a))
    else Throws "not implemented"
|}.

(** Two nodes and no usable edge. *)
Definition disconnected_graph : ndarray :=
  of_rows [ [inf; inf]; [inf; inf] ].

(** [W[i][j] == W[j][i]] for all nodes, by identical entries, and
    [W[i][i]] infinite. *)
Definition symmetric (a : ndarray) : Prop :=
  forall i j : nat, (i < dim a)%nat -> (j < dim a)%nat ->
    entry a i j = entry a j i.

Definition infinite_diagonal (a : ndarray) : Prop :=
  forall i : nat, (i < dim a)%nat -> entry a i i = inf.

(** The adjacency of an undirected graph without self-loops. *)
Definition undirected (m : gmap (nat * nat) (option float)) : Prop :=
  (forall u v, m !! (u, v) = m !! (v, u)) /\ (forall u, m !! (u, u) = None).

(** The two strategies [gen_random_graph] knows by name. *)
Definition known_strategy (method : graph_method) : Prop :=
  method = GraphMethodName "random" \/ method = GraphMethodName "geometric".

(** The staging files of record indices [0 .. n-1] written past [start]
    existing files. *)
Definition staging_names (start n : nat) : list string :=
  (fun i => staging_name (i + start)) <$> seq 0 n.

(** The default strategies of [gen_dataset]. *)
Definition default_gen_methods : list graph_method :=
  [GraphMethodName "random"; GraphMethodName "geometric"].

(** What the second half of [binary_round_aux] does with a rounded
    mantissa: renormalise, then overflow to infinity if need be. *)
Definition normalized (m e : Z) : float :=
  let '(mrs, e') := shr_fexp prec emax m e loc_Exact in
  match shr_m mrs with
  | Z0 => S754_zero false
  | Zpos p =>
      if e' <=? emax - prec then S754_finite false p e'
      else S754_infinity false
  | Zneg _ => S754_nan
  end.

(** Strictly above 1.0, +infinity included. *)
Definition above_one (x : float) : Prop := x = inf \/ ltb one x = true.

(** ** tools/tester.py: the other test cases *)

(** [pat in s] on strings *)
Definition str_contains (pat s : string) : bool :=
  match String.index 0 pat s with
  | Some _ => true
  | None => false
  end.

(** [s.endswith(suffix)] *)
Definition str_endswith (s suffix : string) : bool :=
  let n := String.length s in
  let k := String.length suffix in
  (k <=? n)%nat && bool_decide (String.substring (n - k) k s = suffix).

(** What the test case sees of the operating system: [os.path.isfile],
    [os.path.isdir], the triples of [os.walk], [os.path.normpath],
    [os.path.join], and reading a text file, which may fail. *)
Record os_view := {
  isfile : string -> bool;
  isdir : string -> bool;
  walk : string -> list (string * list string * list string);
  normpath : string -> string;
  path_join : string -> string -> string;
  read_text : string -> outcome string
}.

Module CheckNotAllowedLibrariesTestCase.

Section WithOs.

Variable os : os_view.

(** The fields set by [__init__]. *)
Variable test_name : string.
Variable path : string.
Variable not_allowed_libraries : list string.
Variable excluded_files : list string.
Variable excluded_folders : list string.

Definition not_allowed_warning (lib : string) : string :=
  "The library '" +:+ lib +:+ "' is not allowed.".

(** *** check_file: every library is looked for, none ends the loop *)
Definition check_file (file_path : string) (warnings : gset string)
  : result (bool * gset string) :=
  match read_text os file_path with
  | Throws e => Raise (Exception e)
  | Returns file_content =>
      Ok (fold_left
            (fun '(check, warnings) lib =>
               if str_contains ("import " +:+ lib) file_content
               then (false, {[ not_allowed_warning lib ]} ∪ warnings)
               else (check, warnings))
            not_allowed_libraries (true, warnings))
  end.

(** *** gather_files *)
Definition excluded_root (root : string) : bool :=
  existsb
    (fun excluded_folder =>
       str_contains (normpath os excluded_folder) (normpath os root))
    excluded_folders.

Definition gather_files : result (list string) :=
  if isfile os path then Ok [path]
  else if isdir os path then
    Ok (fold_left
          (fun files '(root, dirs, filenames) =>
             if excluded_root root then files
             else
               fold_left
                 (fun files filename =>
                    if str_endswith filename ".py"
                       && negb (bool_decide (filename ∈ excluded_files))
                    then files ++ [path_join os root filename]
                    else files)
                 filenames files)
          (walk os path) [])
  else Raise (ValueError ("Invalid path: '" +:+ path +:+ "'.")).

(** *** run *)
Fixpoint check_files (files : list string) (score : float)
    (warnings : gset string) : result (float * gset string) :=
  match files with
  | [] => Ok (score, warnings)
  | file_path :: rest =>
      '(ok, warnings) ← check_file file_path warnings;
      check_files rest (if negb ok then zero else score) warnings
  end.

(** The order in which Python iterates over the set of warnings when it
    joins them.  It depends on the hash seed of the process, so it is
    left open: [set_order warnings] is the elements of [warnings] in the
    order of that process. *)
Variable set_order : gset string -> list string.

Definition run (warnings : gset string) : result TestResult :=
  files ← gather_files;
  '(score, warnings) ← check_files files (of_Z 100) warnings;
  let message :=
    if decide (warnings = ∅) then ""
    else "Warnings: " +:+ str_join " & " (set_order warnings) in
  Ok {| name := test_name; percent_value := score; message := message |}.

End WithOs.

End CheckNotAllowedLibrariesTestCase.

(** [Tester]: a list of test cases and the results gathered so far.  A
    test case is run for its result and may change while it runs (a
    performance test keeps its warnings). *)
Module TesterClass.

Section WithTests.

Variable test_case : Type.
Variable run_test : test_case -> result (TestResult * test_case).

Record Tester := { tests : list test_case; results : list TestResult }.

(** [Tester(tests)]: no tests when [None] is given *)
Definition init (tests : option (list test_case)) : Tester :=
  {| tests := default [] tests; results := [] |}.

Definition add_test (t : Tester) (test : test_case) : Tester :=
  {| tests := tests t ++ [test]; results := results t |}.

Fixpoint run_tests (todo done : list test_case) (results : list TestResult)
  : result (list test_case * list TestResult) :=
  match todo with
  | [] => Ok (done, results)
  | test :: rest =>
      '(test_result, test') ← run_test test;
      run_tests rest (done ++ [test']) (results ++ [test_result])
  end.

(** [run] returns [self.results], the list it has just extended. *)
Definition run (t : Tester) : result (list TestResult * Tester) :=
  '(tests', results') ← run_tests (tests t) [] (results t);
  Ok (results', {| tests := tests'; results := results' |}).

End WithTests.

End TesterClass.

(** A node index as numpy reads it on an axis of length [n]. *)
Definition wrap_index (n : nat) (i : Z) : Z :=
  if i <? 0 then i + Z.of_nat n else i.

(** 100.0, the score of a tour as good as the reference *)
Definition hundred : float := mul one (of_Z 100).

(** A record on which the class under test returns a tour that the
    harness accepts, and one on which it returns a tour that the harness
    rejects. *)
Definition accepted_by (cls_to_test : ndarray -> outcome (outcome pytour))
    (a : ndarray) : Prop :=
  exists solution, cls_to_test a = Returns (Returns solution)
                   /\ is_hamiltonian_cycle a solution = Ok true.

Definition rejected_by (cls_to_test : ndarray -> outcome (outcome pytour))
    (a : ndarray) : Prop :=
  exists solution, cls_to_test a = Returns (Returns solution)
                   /\ is_hamiltonian_cycle a solution = Ok false.

(** A submitted class that answers Scenario A's tour on every graph. *)
Definition stubborn_solver (a : ndarray) : outcome (outcome pytour) :=
  Returns (Returns (Some [0; 1; 2; 0])).

(** A record staged by an earlier run. *)
Definition earlier_datum : datum :=
  {| adjacency_matrix := scenario_graph;
     best_path := Some [0; 1; 2; 0];
     path_cost := NpFloat (of_Z 6);
     datum_seed := 7;
     graph_init_method := GraphMethodName "random";
     datum_tsp_method := "christofides" |}.

(** The libraries of a list that a file content names after "import ". *)
Definition flagged (not_allowed_libraries : list string) (content : string)
  : list string :=
  List.filter (fun lib => str_contains ("import " +:+ lib) content)
    not_allowed_libraries.

(** A small project tree: two modules and a text file at the top, one
    module in the folder [tests]. *)
Definition sample_os : os_view := {|
  isfile := fun p =>
    bool_decide (p ∈ ["project/solver.py"; "project/setup.py";
                      "project/notes.txt"; "project/tests/test_solver.py"]);
  isdir := fun p => bool_decide (p ∈ ["project"; "project/tests"]);
  walk := fun p =>
    if decide (p = "project") then
      [("project", ["tests"], ["solver.py"; "setup.py"; "notes.txt"]);
       ("project/tests", [], ["test_solver.py"])]
    else [];
  normpath := fun p => p;
  path_join := fun root filename => root +:+ "/" +:+ filename;
  read_text := fun p =>
    if decide (p = "project/solver.py") then Returns "import networkx as nx"
    else if decide (p = "project/setup.py")
    then Returns "from setuptools import setup"
    else if decide (p = "project/tests/test_solver.py")
    then Returns "# we do not import networkx here"
    else Throws "No such file or directory"
|}.

(** A test case that is its own name and always passes. *)
Definition passing_test (test : string) : result (TestResult * string) :=
  Ok ({| name := test; percent_value := hundred; message := "" |}, test).

(** * Properties *)

(** ** binary64 facts *)

Lemma add_comm (x y : float) : add x y = add y x.
Proof.
  unfold add, SFadd.
  destruct x as [sx|sx| |sx mx ex], y as [sy|sy| |sy my ey];
    try destruct sx; try destruct sy; try reflexivity.
  all: rewrite (Z.min_comm ey ex); f_equal; apply Z.add_comm.
Qed.

Lemma div_eucl_mul (a b : Z) : b <> 0 -> Z.div_eucl (a * b) b = (a, 0).
Proof.
  intros Hb.
  pose proof (Z.div_mul a b Hb) as Hq.
  pose proof (Z.mod_mul a b Hb) as Hr.
  unfold Z.div, Z.modulo in Hq, Hr.
  destruct (Z.div_eucl (a * b) b) as [q r]. simpl in *. congruence.
Qed.

Lemma new_location_zero (n : Z) : new_location n 0 = loc_Exact.
Proof.
  unfold new_location, new_location_even, new_location_odd.
  destruct (Z.even n); reflexivity.
Qed.

(** A finite number divided by itself is exactly 1.0. *)
Lemma div_self_finite s m e :
  div (S754_finite s m e) (S754_finite s m e) = one.
Proof.
  unfold div, SFdiv, SFdiv_core_binary.
  replace (Zdigits2 (Z.pos m) + e - (Zdigits2 (Z.pos m) + e)) with 0 by lia.
  replace (e - e) with 0 by lia.
  change (Z.min (fexp prec emax 0) 0) with (-53).
  change (0 - -53) with 53.
  cbv beta iota zeta.
  rewrite Z.shiftl_mul_pow2 by lia.
  rewrite (Z.mul_comm (Z.pos m)).
  rewrite div_eucl_mul by lia.
  rewrite new_location_zero, xorb_nilpotent.
  vm_compute. reflexivity.
Qed.

Ltac compare_cases :=
  repeat match goal with
    | H : context [Pos.compare_cont Eq ?a ?b] |- _ =>
        change (Pos.compare_cont Eq a b) with (Pos.compare a b) in H
    | |- context [Pos.compare_cont Eq ?a ?b] =>
        change (Pos.compare_cont Eq a b) with (Pos.compare a b)
    end;
  repeat match goal with
    | H : context [Z.compare ?a ?b] |- _ =>
        destruct (Z.compare_spec a b); simpl in H
    | |- context [Z.compare ?a ?b] => destruct (Z.compare_spec a b); simpl
    | H : context [Pos.compare ?a ?b] |- _ =>
        destruct (Pos.compare_spec a b); simpl in H
    | |- context [Pos.compare ?a ?b] => destruct (Pos.compare_spec a b); simpl
    end;
  try discriminate; try reflexivity; try lia.

Ltac float_cases x :=
  destruct x as [[]|[]| |[] ? ?].

(** The comparison of binary64 values is a total preorder away from NaN. *)
Lemma leb_ltb_trans (x c b : float) :
  leb x c = true -> ltb c b = true -> ltb x b = true.
Proof.
  unfold leb, ltb, SFleb, SFltb, SFcompare.
  float_cases x; float_cases c; float_cases b; simpl; intros Hxc Hcb;
    try discriminate; try reflexivity; compare_cases.
Qed.

Lemma ltb_leb (x y : float) : ltb x y = true -> leb x y = true.
Proof.
  unfold leb, ltb, SFleb, SFltb. destruct (SFcompare x y) as [[]|]; auto.
Qed.

Lemma eqb_leb (x y : float) : eqb x y = true -> leb x y = true.
Proof.
  unfold leb, eqb, SFleb, SFeqb. destruct (SFcompare x y) as [[]|]; auto.
Qed.

Lemma ltb_irrefl (x : float) : ltb x x = false.
Proof.
  unfold ltb, SFltb, SFcompare. float_cases x; simpl; try reflexivity.
  - rewrite Z.compare_refl. change (Pos.compare_cont Eq m m) with (Pos.compare m m).
    now rewrite Pos.compare_refl.
  - rewrite Z.compare_refl. change (Pos.compare_cont Eq m m) with (Pos.compare m m).
    now rewrite Pos.compare_refl.
Qed.

Lemma not_leb_gtb (x y : float) :
  isnan x = false -> isnan y = false -> leb x y = false -> ltb y x = true.
Proof.
  unfold leb, ltb, SFleb, SFltb, SFcompare.
  float_cases x; float_cases y; simpl; intros Hx Hy Hxy;
    try discriminate; try reflexivity; compare_cases.
Qed.

Lemma ltb_not_nan (x y : float) :
  ltb x y = true -> isnan x = false /\ isnan y = false.
Proof.
  unfold ltb, SFltb, SFcompare.
  float_cases x; float_cases y; simpl; intros Hxy; try discriminate; auto.
Qed.

(** *** A quotient above 1

    For binary64 numbers [0 < x < y], the rounded quotient [y / x] is
    above 1.0. *)

Lemma digits2_bounds (m : positive) :
  2 ^ (Z.pos (digits2_pos m) - 1) <= Z.pos m < 2 ^ Z.pos (digits2_pos m).
Proof.
  induction m as [m IH|m IH|]; simpl digits2_pos.
  - rewrite Pos2Z.inj_succ.
    replace (Z.succ (Z.pos (digits2_pos m)) - 1)
      with (Z.succ (Z.pos (digits2_pos m) - 1)) by lia.
    rewrite !Z.pow_succ_r by lia. lia.
  - rewrite Pos2Z.inj_succ.
    replace (Z.succ (Z.pos (digits2_pos m)) - 1)
      with (Z.succ (Z.pos (digits2_pos m) - 1)) by lia.
    rewrite !Z.pow_succ_r by lia. lia.
  - simpl. lia.
Qed.

Lemma digits2_unique (q : positive) (k : Z) :
  2 ^ (k - 1) <= Z.pos q < 2 ^ k -> Z.pos (digits2_pos q) = k.
Proof.
  intros [Hlo Hhi]. pose proof (digits2_bounds q) as [Hlo' Hhi'].
  assert (0 < k).
  { destruct (Z.ltb_spec 0 k) as [|Hk]; auto.
    assert (2 ^ k <= 2 ^ 0) by (apply Z.pow_le_mono_r; lia || (destruct (Z.eq_dec k 0); lia)).
    simpl in *. lia. }
  destruct (Z.lt_trichotomy (Z.pos (digits2_pos q)) k) as [Hlt|[Heq|Hgt]]; auto.
  - assert (2 ^ Z.pos (digits2_pos q) <= 2 ^ (k - 1)) by (apply Z.pow_le_mono_r; lia). lia.
  - assert (2 ^ k <= 2 ^ (Z.pos (digits2_pos q) - 1)) by (apply Z.pow_le_mono_r; lia). lia.
Qed.

Lemma valid_finite s m e :
  valid (S754_finite s m e) = true ->
  let d := Z.pos (digits2_pos m) in
  d <= 53 /\ -1074 <= e <= 971 /\ (d = 53 \/ e = -1074) /\ fexp prec emax (d + e) = e.
Proof.
  unfold valid, valid_binary, bounded, canonical_mantissa, fexp, emin, prec, emax.
  intros [H1 H2]%andb_true_iff. apply Z.eqb_eq in H1. apply Z.leb_le in H2.
  simpl. lia.
Qed.

Lemma mantissa_lt (m : positive) :
  Z.pos (digits2_pos m) <= 53 -> Z.pos m < 2 ^ 53.
Proof.
  intros Hd. pose proof (digits2_bounds m) as [_ H].
  assert (2 ^ Z.pos (digits2_pos m) <= 2 ^ 53)
    by (apply Z.pow_le_mono_r; lia).
  lia.
Qed.

(** The quotient and remainder that [SFdiv] rounds, for two positive
    binary64 numbers of which the divisor is the smaller. *)
Section DivCore.

Variables (m1 m2 : positive) (e1 e2 : Z).

(** Their numbers of digits, and by how many binary orders of magnitude
    the dividend exceeds the divisor. *)
Variables (d1 d2 delta : Z).
Hypothesis Hd1 : d1 = Z.pos (digits2_pos m1).
Hypothesis Hd2 : d2 = Z.pos (digits2_pos m2).
Hypothesis Hdelta : delta = d1 + e1 - (d2 + e2).

Hypothesis Hv1 : d1 <= 53 /\ -1074 <= e1 <= 971 /\ (d1 = 53 \/ e1 = -1074).
Hypothesis Hv2 : d2 <= 53 /\ -1074 <= e2 <= 971 /\ (d2 = 53 \/ e2 = -1074).
Hypothesis Hlt : e2 < e1 \/ (e2 = e1 /\ Z.pos m2 < Z.pos m1).

Lemma d_pos : 1 <= d1 /\ 1 <= d2.
Proof. lia. Qed.

Lemma delta_nonneg : 0 <= delta.
Proof.
  destruct Hlt as [He|[He Hm]].
  - assert (d1 = 53) by lia. lia.
  - pose proof (digits2_bounds m1) as [_ H1]. pose proof (digits2_bounds m2) as [H2 _].
    rewrite <- Hd1 in H1. rewrite <- Hd2 in H2.
    assert (d2 - 1 < d1); [|lia].
    apply (Z.pow_lt_mono_r_iff 2); lia.
Qed.

Lemma numerator_gt : Z.pos m2 + 1 <= Z.pos m1 * 2 ^ (e1 - e2).
Proof.
  destruct Hlt as [He|[He Hm]].
  - assert (Hd : d1 = 53) by lia.
    pose proof (digits2_bounds m1) as [H1 _]. rewrite <- Hd1, Hd in H1.
    pose proof (mantissa_lt m2 ltac:(lia)).
    assert (2 ^ 1 <= 2 ^ (e1 - e2)) by (apply Z.pow_le_mono_r; lia).
    change (2 ^ (53 - 1)) with 4503599627370496 in H1.
    change (2 ^ 53) with 9007199254740992 in H.
    change (2 ^ 1) with 2 in H0. nia.
  - subst e2. rewrite Z.sub_diag. simpl. lia.
Qed.

Lemma div_core_eq :
  exists Q r,
    SFdiv_core_binary prec emax (Z.pos m1) e1 (Z.pos m2) e2
      = (Q, delta - 53, new_location (Z.pos m2) r)
    /\ Z.pos m1 * 2 ^ (53 - d1 + d2) = Z.pos m2 * Q + r
    /\ 0 <= r < Z.pos m2.
Proof.
  unfold SFdiv_core_binary. cbv zeta.
  change (Zdigits2 (Z.pos m1)) with (Z.pos (digits2_pos m1)).
  change (Zdigits2 (Z.pos m2)) with (Z.pos (digits2_pos m2)).
  rewrite <- Hd1, <- Hd2, <- Hdelta.
  pose proof delta_nonneg as Hd. pose proof d_pos as [Hp1 Hp2].
  assert (He' : Z.min (fexp prec emax delta) (e1 - e2) = delta - 53).
  { unfold fexp, emin, prec, emax in *. lia. }
  rewrite He'.
  assert (Hs : e1 - e2 - (delta - 53) = 53 - d1 + d2) by lia.
  rewrite Hs.
  destruct (53 - d1 + d2) as [|s|s] eqn:Es; try lia.
  rewrite Z.shiftl_mul_pow2 by lia.
  pose proof (Z_div_mod (Z.pos m1 * 2 ^ Z.pos s) (Z.pos m2) ltac:(lia)) as Hdm.
  destruct (Z.div_eucl (Z.pos m1 * 2 ^ Z.pos s) (Z.pos m2)) as [Q r].
  exists Q, r. repeat split; lia.
Qed.

Lemma quotient_facts (Q r : Z) :
  Z.pos m1 * 2 ^ (53 - d1 + d2) = Z.pos m2 * Q + r ->
  0 <= r < Z.pos m2 ->
  2 ^ 52 <= Q < 2 ^ 54
  /\ (delta = 0 -> 2 ^ 53 + 1 <= Q /\ (Q = 2 ^ 53 + 1 -> 0 < r))
  /\ (delta = 1 -> Q = 2 ^ 52 -> 2 ^ 52 <= r).
Proof.
  intros Hq Hr. pose proof d_pos as [Hp1 Hp2]. pose proof (mantissa_lt m2 ltac:(lia)) as Hm2.
  pose proof (digits2_bounds m1) as [H1lo H1hi]. rewrite <- Hd1 in H1lo, H1hi.
  pose proof (digits2_bounds m2) as [H2lo H2hi]. rewrite <- Hd2 in H2lo, H2hi.
  set (s := 53 - d1 + d2) in *.
  set (P := 2 ^ (d2 - 1)) in *.
  assert (HP : 0 < P) by (apply Z.pow_pos_nonneg; lia).
  assert (H2P : 2 ^ d2 = 2 * P).
  { unfold P. replace d2 with (Z.succ (d2 - 1)) at 1 by lia.
    rewrite Z.pow_succ_r by lia. reflexivity. }
  assert (Hlo : 2 ^ (d1 - 1) * 2 ^ s = 2 ^ 53 * P).
  { unfold P. rewrite <- !Z.pow_add_r by lia. f_equal. unfold s. lia. }
  assert (Hhi : 2 ^ d1 * 2 ^ s = 2 ^ 54 * P).
  { unfold P. rewrite <- !Z.pow_add_r by lia. f_equal. unfold s. lia. }
  assert (Hs : 0 < 2 ^ s) by (apply Z.pow_pos_nonneg; unfold s; lia).
  change (2 ^ 52) with 4503599627370496 in *.
  change (2 ^ 53) with 9007199254740992 in *.
  change (2 ^ 54) with 18014398509481984 in *.
  pose proof numerator_gt as Hnum.
  set (T := 2 ^ (e1 - e2)) in *.
  split; [|split].
  - split; nia.
  - intros Hzero.
    assert (HsT : 2 ^ s = 9007199254740992 * T).
    { unfold T. change 9007199254740992 with (2 ^ 53).
      rewrite <- Z.pow_add_r by lia.
      f_equal. unfold s in *. lia. }
    rewrite HsT in Hq. split; [nia|]. intros ->. nia.
  - intros Hone ->.
    assert (HsT : 2 ^ s = 4503599627370496 * T).
    { unfold T. change 4503599627370496 with (2 ^ 52).
      rewrite <- Z.pow_add_r by lia.
      f_equal. unfold s in *. lia. }
    rewrite HsT in Hq. nia.
Qed.

End DivCore.

Lemma shr_fexp_53 (m : positive) (e : Z) (l : location) :
  Z.pos (digits2_pos m) = 53 -> -1074 <= e ->
  shr_fexp prec emax (Z.pos m) e l = (shr_record_of_loc (Z.pos m) l, e).
Proof.
  intros Hd He. unfold shr_fexp. simpl Zdigits2. rewrite Hd.
  replace (fexp prec emax (53 + e) - e) with 0
    by (unfold fexp, emin, prec, emax; lia).
  reflexivity.
Qed.

Lemma shr_fexp_54 (m : positive) (e : Z) (l : location) :
  Z.pos (digits2_pos m) = 54 -> -1074 <= e ->
  shr_fexp prec emax (Z.pos m) e l = (shr_1 (shr_record_of_loc (Z.pos m) l), e + 1).
Proof.
  intros Hd He. unfold shr_fexp. simpl Zdigits2. rewrite Hd.
  replace (fexp prec emax (54 + e) - e) with 1
    by (unfold fexp, emin, prec, emax; lia).
  reflexivity.
Qed.

Lemma one_eq : one = S754_finite false 4503599627370496 (-52).
Proof. reflexivity. Qed.

Lemma above_one_finite (p : positive) (e : Z) :
  -52 < e \/ (e = -52 /\ 2 ^ 52 < Z.pos p) ->
  above_one (if e <=? emax - prec then S754_finite false p e else S754_infinity false).
Proof.
  intros H. destruct (e <=? emax - prec); [|now left]. right.
  rewrite one_eq. unfold ltb, SFltb, SFcompare.
  change (2 ^ 52) with 4503599627370496 in H.
  destruct (Z.compare_spec (-52) e) as [Heq|Hlt|Hgt]; [|reflexivity|lia].
  change (Pos.compare_cont Eq 4503599627370496 p)
    with (Z.compare 4503599627370496 (Z.pos p)).
  destruct (Z.compare_spec 4503599627370496 (Z.pos p)) as [Hp|Hp|Hp];
    [lia|reflexivity|lia].
Qed.

Lemma normalized_above_one (m e : Z) :
  2 ^ 52 <= m <= 2 ^ 53 ->
  -52 < e \/ (e = -52 /\ 2 ^ 52 < m) ->
  above_one (normalized m e).
Proof.
  intros Hm He. unfold normalized.
  change (2 ^ 52) with 4503599627370496 in *.
  change (2 ^ 53) with 9007199254740992 in *.
  destruct m as [|p|p]; try lia.
  destruct (Z.eq_dec (Z.pos p) 9007199254740992) as [Heq|Hne].
  - inversion Heq; subst p.
    rewrite shr_fexp_54 by (try reflexivity; lia). simpl shr_m.
    apply above_one_finite. lia.
  - rewrite shr_fexp_53.
    + simpl shr_m. apply above_one_finite. lia.
    + apply digits2_unique. change (2 ^ (53 - 1)) with 4503599627370496.
      change (2 ^ 53) with 9007199254740992. lia.
    + lia.
Qed.

Lemma shr_m_of_loc (m : Z) (l : location) : shr_m (shr_record_of_loc m l) = m.
Proof. destruct l as [|[]]; reflexivity. Qed.

Lemma loc_of_shr_record_of_loc (m : Z) (l : location) :
  loc_of_shr_record (shr_record_of_loc m l) = l.
Proof. destruct l as [|[]]; reflexivity. Qed.

Lemma round_nearest_even_bounds (m : Z) (l : location) :
  m <= round_nearest_even m l <= m + 1.
Proof. unfold round_nearest_even. destruct l as [|[]]; try destruct (Z.even m); lia. Qed.

Lemma binary_round_aux_normalized (m e : Z) (l : location) :
  binary_round_aux prec emax false m e l
  = let '(mrs, e') := shr_fexp prec emax m e l in
    normalized (round_nearest_even (shr_m mrs) (loc_of_shr_record mrs)) e'.
Proof. unfold binary_round_aux, normalized. destruct (shr_fexp prec emax m e l). reflexivity. Qed.

Lemma round_aux_above_one (Q delta : Z) (l : location) :
  0 <= delta -> 2 ^ 52 <= Q < 2 ^ 54 ->
  (delta = 0 -> 2 ^ 53 + 1 <= Q /\ (Q = 2 ^ 53 + 1 -> l <> loc_Exact)) ->
  (delta = 1 -> Q = 2 ^ 52 -> l = loc_Inexact Gt) ->
  above_one (binary_round_aux prec emax false Q (delta - 53) l).
Proof.
  change (2 ^ 52) with 4503599627370496.
  change (2 ^ 53) with 9007199254740992.
  change (2 ^ 54) with 18014398509481984.
  intros Hd HQ H0 H1. rewrite binary_round_aux_normalized.
  destruct Q as [|q|q]; try lia.
  destruct (Z.ltb_spec (Z.pos q) 9007199254740992) as [Hlt|Hge].
  - rewrite shr_fexp_53.
    2:{ apply digits2_unique. change (2 ^ (53 - 1)) with 4503599627370496.
        change (2 ^ 53) with 9007199254740992. lia. }
    2:{ lia. }
    rewrite shr_m_of_loc, loc_of_shr_record_of_loc.
    pose proof (round_nearest_even_bounds (Z.pos q) l) as Hr.
    apply normalized_above_one.
    + change (2 ^ 52) with 4503599627370496.
      change (2 ^ 53) with 9007199254740992. lia.
    + change (2 ^ 52) with 4503599627370496.
      destruct (Z.eq_dec delta 0) as [E0|N0]; [lia|].
      destruct (Z.eq_dec delta 1) as [E1|N1]; [|lia].
      right. split; [lia|].
      destruct (Z.eq_dec (Z.pos q) 4503599627370496) as [Eq|Nq]; [|lia].
      rewrite (H1 E1 Eq). simpl. lia.
  - rewrite shr_fexp_54.
    2:{ apply digits2_unique. change (2 ^ (54 - 1)) with 9007199254740992.
        change (2 ^ 54) with 18014398509481984. lia. }
    2:{ lia. }
    assert (Hshr : exists (p : positive) (b s : bool),
              shr_1 (shr_record_of_loc (Z.pos q) l)
                = {| shr_m := Z.pos p; shr_r := b; shr_s := s |}
              /\ Z.pos q = 2 * Z.pos p + (if b then 1 else 0)
              /\ (l <> loc_Exact -> s = true)).
    { destruct q as [p|p|]; try lia.
      - exists p, true. destruct l as [|[]]; eexists; repeat split; try lia; congruence.
      - exists p, false. destruct l as [|[]]; eexists; repeat split; try lia; congruence. }
    destruct Hshr as (p & b & s & -> & Hq & Hs). simpl shr_m.
    pose proof (round_nearest_even_bounds (Z.pos p)
                  (loc_of_shr_record {| shr_m := Z.pos p; shr_r := b; shr_s := s |})) as Hr.
    apply normalized_above_one.
    + change (2 ^ 52) with 4503599627370496.
      change (2 ^ 53) with 9007199254740992. destruct b; lia.
    + change (2 ^ 52) with 4503599627370496.
      destruct (Z.eq_dec delta 0) as [E0|N0]; [|lia].
      right. split; [lia|]. destruct (H0 E0) as [HQ1 Hl].
      destruct (Z.eq_dec (Z.pos q) 9007199254740993) as [Eq|Nq].
      * assert (b = true) by (destruct b; lia). subst b.
        rewrite (Hs (Hl Eq)) in *. simpl in *. lia.
      * destruct b; lia.
Qed.

Lemma new_location_inexact (n r : Z) : r <> 0 -> new_location n r <> loc_Exact.
Proof.
  intros Hr. unfold new_location, new_location_even, new_location_odd.
  destruct (Z.even n); destruct (Z.eqb_spec r 0); try contradiction;
    discriminate.
Qed.

Lemma new_location_above_half (n r : Z) :
  0 < r -> n < 2 * r -> new_location n r = loc_Inexact Gt.
Proof.
  intros Hr Hn. unfold new_location, new_location_even, new_location_odd.
  destruct (Z.even n); destruct (Z.eqb_spec r 0); try lia.
  - destruct (Z.compare_spec (2 * r) n); try lia. reflexivity.
  - destruct (Z.compare_spec (2 * r + 1) n); try lia. reflexivity.
Qed.

Lemma div_above_one (x y : float) :
  valid x = true -> valid y = true ->
  ltb zero x = true -> ltb x y = true ->
  above_one (div y x).
Proof.
  intros Hvx Hvy Hx Hxy.
  destruct x as [[]|[]| |[] m2 e2]; try (vm_compute in Hx; discriminate).
  { destruct y as [[]|[]| |[] ? ?]; vm_compute in Hxy; discriminate. }
  destruct y as [[]|[]| |[] m1 e1]; try (cbv in Hxy; discriminate).
  { now left. }
  apply valid_finite in Hvx, Hvy. simpl in Hvx, Hvy.
  assert (Hlt : e2 < e1 \/ (e2 = e1 /\ Z.pos m2 < Z.pos m1)).
  { unfold ltb, SFltb, SFcompare in Hxy.
    destruct (Z.compare_spec e2 e1) as [He|He|He]; try discriminate; [|lia].
    right. split; [exact He|].
    change (Pos.compare_cont Eq m2 m1) with (Z.compare (Z.pos m2) (Z.pos m1)) in Hxy.
    destruct (Z.compare_spec (Z.pos m2) (Z.pos m1)); try discriminate. lia. }
  assert (H1 : Z.pos (digits2_pos m1) <= 53 /\ -1074 <= e1 <= 971
               /\ (Z.pos (digits2_pos m1) = 53 \/ e1 = -1074)) by tauto.
  assert (H2 : Z.pos (digits2_pos m2) <= 53 /\ -1074 <= e2 <= 971
               /\ (Z.pos (digits2_pos m2) = 53 \/ e2 = -1074)) by tauto.
  destruct (div_core_eq m1 m2 e1 e2 _ _ _ eq_refl eq_refl eq_refl H1 H2 Hlt)
    as (Q & r & Hcore & Hq & Hr).
  destruct (quotient_facts m1 m2 e1 e2 _ _ _ eq_refl eq_refl eq_refl H1 H2 Hlt
              Q r Hq Hr) as (HQ & Hd0 & Hd1).
  unfold div, SFdiv. rewrite Hcore. simpl xorb.
  apply round_aux_above_one.
  - apply (delta_nonneg m1 m2 e1 e2 _ _ _ eq_refl eq_refl eq_refl H1 H2 Hlt).
  - exact HQ.
  - intros Hd. destruct (Hd0 Hd) as [HQ1 Hr1]. split; [exact HQ1|].
    intros HQe. apply new_location_inexact. specialize (Hr1 HQe). lia.
  - intros Hd HQe. specialize (Hd1 Hd HQe).
    pose proof (mantissa_lt m2 ltac:(lia)) as Hm2.
    change (2 ^ 52) with 4503599627370496 in Hd1.
    change (2 ^ 53) with 9007199254740992 in Hm2.
    apply new_location_above_half; lia.
Qed.

(** ** get_path_cost *)

Ltac result_bind := unfold mbind, result_bind in *; simpl in *.

Lemma traversed_app a es1 es2 ws :
  traversed a (es1 ++ es2) = Ok ws ->
  exists ws1 ws2,
    traversed a es1 = Ok ws1 /\ traversed a es2 = Ok ws2 /\ ws = ws1 ++ ws2.
Proof.
  revert ws. induction es1 as [|[i j] es1 IH]; intros ws Hws; simpl in *.
  - exists [], ws. auto.
  - result_bind. destruct (getitem2 a i j) as [w|]; [|discriminate].
    destruct (traversed a (es1 ++ es2)) as [ws'|] eqn:E; [|discriminate].
    destruct (IH ws' eq_refl) as (ws1 & ws2 & -> & H2 & ->).
    exists (w :: ws1), ws2. inversion Hws; subst. auto.
Qed.

Lemma path_cost_loop_nan a pre i j post ws w cost :
  traversed a pre = Ok ws ->
  getitem2 a i j = Ok w -> isnan w = true ->
  path_cost_loop a (pre ++ (i, j) :: post) cost = Ok (PyFloat inf).
Proof.
  intros Hpre Hij Hnan. revert ws cost Hpre.
  induction pre as [|[i0 j0] pre IH]; intros ws cost Hpre; simpl in *.
  - result_bind. now rewrite Hij, Hnan.
  - result_bind. destruct (getitem2 a i0 j0) as [w0|]; [|discriminate].
    destruct (isnan w0); [reflexivity|].
    destruct (traversed a pre) as [ws0|]; [|discriminate].
    now apply (IH ws0).
Qed.

Lemma path_cost_loop_sum a es ws cost :
  traversed a es = Ok ws -> existsb isnan ws = false ->
  path_cost_loop a es cost =
    Ok (match ws with
        | [] => cost
        | _ => NpFloat (fold_left add ws (num_val cost))
        end).
Proof.
  revert ws cost. induction es as [|[i j] es IH]; intros ws cost Hws Hnan;
    simpl in *.
  - inversion Hws; reflexivity.
  - result_bind. destruct (getitem2 a i j) as [w|]; [|discriminate].
    destruct (traversed a es) as [ws'|] eqn:E; [|discriminate].
    inversion Hws; subst; clear Hws. simpl in Hnan.
    apply orb_false_iff in Hnan as [Hw Hnan]. rewrite Hw.
    rewrite (IH ws' _ eq_refl Hnan). destruct ws'; reflexivity.
Qed.

(** C3, amended: on every graph and every tour, [get_path_cost] returns
    +infinity as soon as the edge it reads is NaN, wherever that edge sits
    and whatever follows it, provided the lookups before it succeed; and
    when every lookup of the tour succeeds and none of the weights is NaN it
    returns their left-to-right sum. *)
Theorem get_path_cost_nan_or_sum (a : ndarray) (p : list Z) :
  (forall pre i j post ws w,
     edges p = pre ++ (i, j) :: post ->
     traversed a pre = Ok ws ->
     getitem2 a i j = Ok w -> isnan w = true ->
     get_path_cost a (Some p) = Ok (PyFloat inf))
  /\
  (forall ws,
     traversed a (edges p) = Ok ws -> existsb isnan ws = false ->
     get_path_cost a (Some p) = Ok (sum_cost ws)).
Proof.
  split.
  - intros pre i j post ws w He Hpre Hij Hnan. unfold get_path_cost.
    rewrite He. eapply path_cost_loop_nan; eauto.
  - intros ws Hws Hnan. unfold get_path_cost.
    rewrite (path_cost_loop_sum _ _ _ _ Hws Hnan). reflexivity.
Qed.

(** ** is_hamiltonian_cycle *)

Lemma non_finite_test (w : float) :
  isnan w || isinf w || negb (isfinite w) = negb (isfinite w).
Proof. destruct w; reflexivity. Qed.

Lemma finite_loop_traversed a es ws :
  traversed a es = Ok ws -> finite_loop a es = Ok (forallb isfinite ws).
Proof.
  revert ws. induction es as [|[i j] es IH]; intros ws Hws; simpl in *.
  - inversion Hws; reflexivity.
  - result_bind. destruct (getitem2 a i j) as [w|]; [|discriminate].
    destruct (traversed a es) as [ws'|]; [|discriminate].
    inversion Hws; subst; clear Hws. simpl.
    rewrite non_finite_test. destruct (isfinite w); simpl; auto.
Qed.

Lemma py_getitem_first {A} (l : list A) x :
  head l = Some x -> py_getitem l 0 = Ok x.
Proof.
  destruct l as [|y l]; [discriminate|]. intros [= ->].
  unfold py_getitem. simpl length.
  replace (0 <? 0) with false by reflexivity.
  replace ((0 <=? 0) && (0 <? Z.of_nat (S (length l)))) with true; [reflexivity|].
  symmetry. apply andb_true_iff. split; [reflexivity | apply Z.ltb_lt; lia].
Qed.

Lemma py_getitem_last {A} (l : list A) x :
  last l = Some x -> py_getitem l (-1) = Ok x.
Proof.
  intros Hl. assert (Hlen : (0 < length l)%nat).
  { destruct l; [discriminate | simpl; lia]. }
  unfold py_getitem. replace (-1 <? 0) with true by reflexivity.
  replace ((0 <=? -1 + Z.of_nat (length l))
           && (-1 + Z.of_nat (length l) <? Z.of_nat (length l))) with true.
  2:{ symmetry. apply andb_true_iff.
      split; [apply Z.leb_le | apply Z.ltb_lt]; lia. }
  replace (Z.to_nat (-1 + Z.of_nat (length l))) with (pred (length l)) by lia.
  now rewrite <- last_lookup, Hl.
Qed.

Lemma size_list_to_set_distinct (l : list Z) :
  size (list_to_set l : gset Z) = distinct_count l.
Proof.
  unfold distinct_count.
  rewrite <- (size_list_to_set (C := gset Z) (remove_dups l))
    by apply NoDup_remove_dups.
  f_equal. apply set_eq. intros x.
  rewrite !elem_of_list_to_set. now rewrite elem_of_remove_dups.
Qed.

(** With a first axis of length [n], the function is the three shape
    checks followed by the scan of the edges. *)
Lemma is_hamiltonian_cycle_unfold a n p :
  shape0 a = Ok n ->
  is_hamiltonian_cycle a (Some p) =
    if shape_ok n p then finite_loop a (edges p) else Ok false.
Proof.
  intros Hn. unfold is_hamiltonian_cycle, shape_ok. rewrite Hn. result_bind.
  destruct (Nat.eqb_spec (length p) (n + 1)) as [Hlen|Hlen]; simpl; [|reflexivity].
  destruct (head p) as [x|] eqn:Hx; [|destruct p; [simpl in Hlen; lia|discriminate]].
  destruct (last p) as [y|] eqn:Hy.
  2:{ apply last_None in Hy. subst p. discriminate. }
  rewrite (py_getitem_first _ _ Hx), (py_getitem_last _ _ Hy).
  destruct (Z.eqb_spec x y) as [->|Hxy]; simpl.
  2:{ rewrite bool_decide_eq_false_2; [reflexivity | congruence]. }
  rewrite bool_decide_eq_true_2 by reflexivity. simpl.
  rewrite size_list_to_set_distinct, removelast_firstn_len.
  replace (Init.Nat.pred (length p)) with n by lia.
  destruct (distinct_count (take n p) =? n)%nat; reflexivity.
Qed.

Lemma shape0_ok a : dim a <> 1%nat -> shape0 a = Ok (dim a).
Proof.
  intros Hd. unfold shape0, squeezed_shape.
  destruct (Nat.eqb_spec (dim a) 1); [contradiction | reflexivity].
Qed.

Lemma traversed_cons_dim a e es ws :
  traversed a (e :: es) = Ok ws -> dim a <> 1%nat.
Proof.
  destruct e as [i j]. simpl. unfold getitem2, squeezed_shape.
  destruct (Nat.eqb_spec (dim a) 1); [discriminate | auto].
Qed.

(** C2, amended: on a graph whose node count [n] is not 1,
    [is_hamiltonian_cycle] returns false when the tour has not [n + 1]
    entries, or its first and last entries differ, or its first [n] entries
    do not hold [n] distinct values; and when every edge lookup of the tour
    succeeds, it returns false if one of these checks fails or some
    traversed weight is NaN or infinite, and true otherwise. *)
Theorem is_hamiltonian_cycle_spec (a : ndarray) (p : list Z) :
  dim a <> 1%nat ->
  (shape_ok (dim a) p = false -> is_hamiltonian_cycle a (Some p) = Ok false)
  /\
  (forall ws,
     traversed a (edges p) = Ok ws ->
     is_hamiltonian_cycle a (Some p)
       = Ok (shape_ok (dim a) p && forallb isfinite ws)).
Proof.
  intros Hd. pose proof (is_hamiltonian_cycle_unfold a _ p (shape0_ok a Hd)) as Hu.
  split.
  - intros Hs. now rewrite Hu, Hs.
  - intros ws Hws. rewrite Hu. destruct (shape_ok (dim a) p); [|reflexivity].
    now apply finite_loop_traversed.
Qed.

(** C9: a tour of [n + 1] entries, closed, whose first [n] entries are [n]
    distinct values not all within [0 .. n-1], is accepted as soon as its
    edge lookups succeed and give finite weights. *)
Theorem out_of_range_tour_accepted (a : ndarray) (p : list Z) (ws : list float) :
  length p = S (dim a) ->
  head p = last p ->
  distinct_count (take (dim a) p) = dim a ->
  (exists x, x ∈ take (dim a) p /\ (x < 0 \/ Z.of_nat (dim a) <= x)) ->
  traversed a (edges p) = Ok ws ->
  forallb isfinite ws = true ->
  is_hamiltonian_cycle a (Some p) = Ok true.
Proof.
  intros Hlen Hends Hdistinct _ Hws Hfin.
  assert (Hd : dim a <> 1%nat).
  { destruct p as [|x [|y p]]; simpl in Hlen; try lia.
    eapply traversed_cons_dim. simpl edges in Hws. exact Hws. }
  rewrite (is_hamiltonian_cycle_unfold a _ p (shape0_ok a Hd)).
  assert (Hs : shape_ok (dim a) p = true).
  { unfold shape_ok. rewrite Hlen, Hdistinct, (bool_decide_eq_true_2 _ Hends).
    rewrite Nat.eqb_refl. replace (dim a + 1)%nat with (S (dim a)) by lia.
    now rewrite Nat.eqb_refl. }
  rewrite Hs, (finite_loop_traversed _ _ _ Hws). now rewrite Hfin.
Qed.

(** C3 at work: the undefined edge 1-2 is the second of three, the result
    is +infinity; Scenario A costs 1 + 3 + 2. *)
Lemma get_path_cost_nan_or_sum_witness :
  get_path_cost nan_edge_graph (Some [0; 1; 2; 0]) = Ok (PyFloat inf)
  /\ get_path_cost scenario_graph (Some [0; 1; 2; 0])
     = Ok (sum_cost [of_Z 1; of_Z 3; of_Z 2]).
Proof.
  split.
  - apply (proj1 (get_path_cost_nan_or_sum nan_edge_graph [0; 1; 2; 0])
             [(0, 1)] 1 2 [(2, 0)] [of_Z 1] nan); reflexivity.
  - apply (proj2 (get_path_cost_nan_or_sum scenario_graph [0; 1; 2; 0]));
      reflexivity.
Defined.

(** C3 as stated fails: a tour numbered from 1 has no NaN among the weights
    it reads, yet no sum is returned; and on the one-node graph the NaN
    weight of the edge 0-0 is never reached. *)
Lemma get_path_cost_raises :
  traversed scenario_graph [(1, 2)] = Ok [of_Z 3]
  /\ get_path_cost scenario_graph (Some [1; 2; 3]) = Raise IndexError
  /\ entry one_node_graph 0 0 = nan
  /\ get_path_cost one_node_graph (Some [0; 0]) = Raise IndexError.
Proof. repeat split; reflexivity. Qed.

(** C2 at work on Scenario A and Scenario B. *)
Lemma is_hamiltonian_cycle_spec_witness :
  is_hamiltonian_cycle scenario_graph (Some [0; 1; 0]) = Ok false
  /\ is_hamiltonian_cycle scenario_graph (Some [0; 1; 2; 0]) = Ok true.
Proof.
  split.
  - apply (proj1 (is_hamiltonian_cycle_spec scenario_graph [0; 1; 0]
                    ltac:(vm_compute; lia))).
    reflexivity.
  - exact (proj2 (is_hamiltonian_cycle_spec scenario_graph [0; 1; 2; 0]
                    ltac:(vm_compute; lia))
                 [of_Z 1; of_Z 3; of_Z 2] eq_refl).
Defined.

(** C2 as stated fails: the tour 1, 2, 3, 1 on three nodes has four
    entries, is closed, has three distinct values and reads no non-finite
    weight, and the one-entry tour on one node has the wrong length; neither
    gets an answer. *)
Lemma is_hamiltonian_cycle_raises :
  shape_ok 3 [1; 2; 3; 1] = true
  /\ is_hamiltonian_cycle scenario_graph (Some [1; 2; 3; 1]) = Raise IndexError
  /\ shape_ok 1 [0] = false
  /\ is_hamiltonian_cycle one_node_graph (Some [0]) = Raise IndexError.
Proof. repeat split; reflexivity. Qed.

(** C9 at work: on four nodes the tour 0, 1, -4, -3, 0 only ever visits
    nodes 0 and 1, and is accepted. *)
Lemma out_of_range_tour_accepted_witness :
  is_hamiltonian_cycle unit_graph4 (Some [0; 1; -4; -3; 0]) = Ok true.
Proof.
  apply (out_of_range_tour_accepted unit_graph4 [0; 1; -4; -3; 0]
           [of_Z 1; of_Z 1; of_Z 1; of_Z 1]).
  - reflexivity.
  - reflexivity.
  - reflexivity.
  - exists (-4). split; [vm_compute; set_solver | lia].
  - reflexivity.
  - reflexivity.
Defined.

(** ** compute_score *)

Lemma finite_loop_true a es :
  finite_loop a es = Ok true ->
  exists ws, traversed a es = Ok ws /\ forallb isfinite ws = true.
Proof.
  induction es as [|[i j] es IH]; simpl; intros Hf.
  - exists []. auto.
  - result_bind. destruct (getitem2 a i j) as [w|]; [|discriminate].
    rewrite non_finite_test in Hf.
    destruct (isfinite w) eqn:Hw; simpl in Hf; [|discriminate].
    destruct (IH Hf) as (ws & -> & Hws). exists (w :: ws). simpl.
    now rewrite Hw, Hws.
Qed.

Lemma finite_not_nan (ws : list float) :
  forallb isfinite ws = true -> existsb isnan ws = false.
Proof.
  induction ws as [|w ws IH]; simpl; [reflexivity|].
  intros [Hw Hws]%andb_true_iff. rewrite (IH Hws).
  destruct w; try discriminate; reflexivity.
Qed.

(** An accepted tour has all its weights read, finite, and summed. *)
Lemma accepted_tour_cost a p :
  is_hamiltonian_cycle a (Some p) = Ok true ->
  exists ws,
    traversed a (edges p) = Ok ws /\ forallb isfinite ws = true
    /\ length p = S (dim a)
    /\ get_path_cost a (Some p) = Ok (sum_cost ws).
Proof.
  intros Hok.
  destruct (shape0 a) as [n|] eqn:Hn.
  2:{ unfold is_hamiltonian_cycle in Hok. rewrite Hn in Hok. discriminate. }
  assert (n = dim a) as ->.
  { unfold shape0, squeezed_shape in Hn.
    destruct (dim a =? 1)%nat; [discriminate | congruence]. }
  rewrite (is_hamiltonian_cycle_unfold a _ p Hn) in Hok.
  destruct (shape_ok (dim a) p) eqn:Hs; [|discriminate].
  destruct (finite_loop_true _ _ Hok) as (ws & Hws & Hfin).
  exists ws. repeat split; auto.
  - unfold shape_ok in Hs.
    apply andb_true_iff in Hs as [[Hlen _]%andb_true_iff _].
    apply Nat.eqb_eq in Hlen. lia.
  - unfold get_path_cost.
    now rewrite (path_cost_loop_sum _ _ _ _ Hws (finite_not_nan _ Hfin)).
Qed.

Lemma traversed_length a es ws :
  traversed a es = Ok ws -> length ws = length es.
Proof.
  revert ws. induction es as [|[i j] es IH]; simpl; intros ws Hws.
  - now inversion Hws.
  - result_bind. destruct (getitem2 a i j); [|discriminate].
    destruct (traversed a es) as [ws'|]; [|discriminate].
    inversion Hws; subst. simpl. now rewrite (IH ws').
Qed.

Lemma edges_length (p : list Z) : length (edges p) = pred (length p).
Proof.
  induction p as [|x [|y p] IH]; try reflexivity.
  change (edges (x :: y :: p)) with ((x, y) :: edges (y :: p)).
  simpl length in *. now rewrite IH.
Qed.

(** On a graph with at least one node, the cost of an accepted tour is a
    numpy scalar. *)
Lemma accepted_tour_cost_np a p :
  is_hamiltonian_cycle a (Some p) = Ok true -> dim a <> 0%nat ->
  exists x, get_path_cost a (Some p) = Ok (NpFloat x).
Proof.
  intros Hok Hd.
  destruct (accepted_tour_cost a p Hok) as (ws & Hws & _ & Hlen & Hcost).
  apply traversed_length in Hws. rewrite edges_length, Hlen in Hws.
  destruct ws as [|w ws]; [simpl in Hws; lia|].
  eexists. exact Hcost.
Qed.

Lemma py_truediv_np (r : pynum) (x : float) :
  py_truediv r (NpFloat x) = Ok (NpFloat (div (num_val r) x)).
Proof. unfold py_truediv. simpl. now rewrite orb_true_r. Qed.

(** Equal costs score exactly 1.0: directly when they are finite and not
    zero, through NaN when both are zero or both infinite. *)
Lemma score_of_equal (x y : float) : eqb x y = true -> score_of y x = one.
Proof.
  unfold eqb, SFeqb, SFcompare.
  float_cases x; float_cases y; intros Hxy; simpl in Hxy;
    try discriminate; try reflexivity.
  all: change (Pos.compare_cont Eq ?u ?v) with (Pos.compare u v) in Hxy.
  all: destruct (Z.compare_spec e e0); try discriminate.
  all: destruct (Pos.compare_spec m m0); try discriminate.
  all: subst; unfold score_of; rewrite div_self_finite; reflexivity.
Qed.

(** No clamp: a finite ratio is returned as it is. *)
Lemma nan_to_num_finite (x u v w : float) :
  isfinite x = true -> nan_to_num x u v w = x.
Proof. destruct x; try discriminate; reflexivity. Qed.

(** A candidate cheaper than the reference, both costs positive binary64
    numbers: the score is above 1.0, unless the ratio overflowed and was
    replaced by 0.0. *)
Lemma score_of_better (r c : float) :
  valid c = true -> valid r = true ->
  ltb zero c = true -> ltb c r = true ->
  score_of r c = zero \/ ltb one (score_of r c) = true.
Proof.
  intros Hvc Hvr Hc Hcr. unfold score_of.
  destruct (div_above_one c r Hvc Hvr Hc Hcr) as [-> | Hgt]; [now left|].
  destruct (div r c) as [[]|[]| |s m e]; try discriminate; [now left|].
  right. exact Hgt.
Qed.

(** C1, amended: [compute_score] returns 0.0 for a tour that
    [is_hamiltonian_cycle] rejects.  For an accepted tour, on a graph that
    has nodes and with a reference tour whose cost can be computed, it
    returns the ratio of the reference cost to the candidate cost with NaN
    replaced by 1.0 and the infinities by 0.0, and no clamp: a finite ratio
    is returned as it is.  That is exactly 1.0 when the two costs are equal;
    and when the candidate cost is positive and strictly below the
    reference cost it is strictly above 1.0, or 0.0 if the ratio overflowed
    to +infinity. *)
Theorem compute_score_spec (a : ndarray) (solution target : pytour)
    (warnings : gset string) :
  (is_hamiltonian_cycle a solution = Ok false ->
   compute_score a solution target warnings
     = Ok (zero, {[ not_hamiltonian_warning ]} ∪ warnings))
  /\
  (forall r : pynum,
     is_hamiltonian_cycle a solution = Ok true -> dim a <> 0%nat ->
     get_path_cost a target = Ok r ->
     exists c : pynum,
       get_path_cost a solution = Ok c
       /\ compute_score a solution target warnings
          = Ok (score_of (num_val r) (num_val c), warnings)
       /\ (isfinite (div (num_val r) (num_val c)) = true ->
           score_of (num_val r) (num_val c) = div (num_val r) (num_val c))
       /\ (eqb (num_val c) (num_val r) = true ->
           score_of (num_val r) (num_val c) = one)
       /\ (valid (num_val c) = true -> valid (num_val r) = true ->
           ltb zero (num_val c) = true ->
           ltb (num_val c) (num_val r) = true ->
           score_of (num_val r) (num_val c) = zero
           \/ ltb one (score_of (num_val r) (num_val c)) = true)).
Proof.
  split.
  - intros Hno. unfold compute_score. rewrite Hno. reflexivity.
  - intros r Hok Hd Hr. destruct solution as [p|]; [|discriminate].
    destruct (accepted_tour_cost_np a p Hok Hd) as [x Hx].
    exists (NpFloat x). split; [exact Hx|]. split; [|split; [|split]].
    + unfold compute_score. rewrite Hok. result_bind. rewrite Hx, Hr. simpl.
      rewrite py_truediv_np. reflexivity.
    + intros Hfin. now apply nan_to_num_finite.
    + apply score_of_equal.
    + apply score_of_better.
Qed.

(** C1 at work: Scenario B scores 0.0, Scenario A scores 1.0. *)
Lemma compute_score_spec_witness :
  compute_score scenario_graph (Some [0; 1; 0]) (Some [0; 2; 1; 0]) ∅
    = Ok (zero, {[ not_hamiltonian_warning ]} ∪ ∅)
  /\ compute_score scenario_graph (Some [0; 1; 2; 0]) (Some [0; 2; 1; 0]) ∅
     = Ok (one, ∅).
Proof.
  split.
  - apply (proj1 (compute_score_spec scenario_graph (Some [0; 1; 0])
                    (Some [0; 2; 1; 0]) ∅)).
    reflexivity.
  - destruct (proj2 (compute_score_spec scenario_graph (Some [0; 1; 2; 0])
                       (Some [0; 2; 1; 0]) ∅)
                (NpFloat (of_Z 6)) eq_refl ltac:(vm_compute; lia) eq_refl)
      as (c & Hc & Hscore & _ & Hequal & _).
    rewrite Hscore. vm_compute in Hc. inversion Hc; subst c.
    rewrite (Hequal eq_refl). reflexivity.
Defined.

(** C1 as stated fails: on the ring of free edges the candidate costs 0,
    strictly less than the reference's 2; the ratio is +infinity and the
    score 0.0, which is not above 1.0. *)
Lemma cheaper_candidate_scores_zero :
  is_hamiltonian_cycle free_ring_graph (Some [0; 1; 2; 3; 0]) = Ok true
  /\ get_path_cost free_ring_graph (Some [0; 1; 2; 3; 0]) = Ok (NpFloat zero)
  /\ get_path_cost free_ring_graph (Some [0; 2; 1; 3; 0])
     = Ok (NpFloat (of_Z 2))
  /\ ltb zero (of_Z 2) = true
  /\ compute_score free_ring_graph (Some [0; 1; 2; 3; 0])
       (Some [0; 2; 1; 3; 0]) ∅ = Ok (zero, ∅)
  /\ ltb one zero = false.
Proof. repeat split; reflexivity. Qed.

(** Costs 3 and 6 give the score 2.0: nothing caps it at 1.0. *)
Lemma score_of_half_cost :
  score_of (of_Z 6) (of_Z 3) = of_Z 2 /\ ltb one (of_Z 2) = true.
Proof. split; reflexivity. Qed.

(** The weights used in the examples are binary64 numbers. *)
Lemma example_weights_valid :
  Forall (fun x => valid x = true)
    [zero; inf; nan; of_Z 1; of_Z 2; of_Z 3; of_Z 6; max_float].
Proof. repeat constructor. Qed.

Lemma norm_index_empty (i : Z) : norm_index 0 i = Raise IndexError.
Proof.
  unfold norm_index. change (Z.of_nat 0) with 0. change (- 0) with 0.
  destruct (Z.leb_spec 0 i), (Z.ltb_spec i 0); simpl; try reflexivity; lia.
Qed.

Lemma getitem2_dim a i j w : getitem2 a i j = Ok w -> dim a <> 0%nat.
Proof.
  unfold getitem2, squeezed_shape. intros Hw Hd. rewrite Hd in Hw.
  simpl in Hw. rewrite !norm_index_empty in Hw. discriminate.
Qed.

(** A cost other than the initial integer 0 was read from the graph. *)
Lemma path_cost_loop_dim a es cost r :
  path_cost_loop a es cost = Ok r -> r = cost \/ dim a <> 0%nat.
Proof.
  destruct es as [|[i j] es]; simpl; intros Hr.
  - left. congruence.
  - right. result_bind. destruct (getitem2 a i j) as [w|] eqn:Hw; [|discriminate].
    eapply getitem2_dim; eauto.
Qed.

Lemma div_inf_finite (x : float) :
  isfinite x = true -> nan_to_num (div inf x) one zero zero = zero.
Proof. destruct x as [[]|[]| |[] ? ?]; try discriminate; reflexivity. Qed.

(** C10, amended: when the accepted candidate's cost is finite and the
    reference tour's cost is +infinity, the score is 0.0. *)
Theorem infinite_reference_scores_zero
    (a : ndarray) (solution target : pytour) (c r : pynum)
    (warnings : gset string) :
  is_hamiltonian_cycle a solution = Ok true ->
  get_path_cost a solution = Ok c ->
  isfinite (num_val c) = true ->
  get_path_cost a target = Ok r ->
  num_val r = inf ->
  compute_score a solution target warnings = Ok (zero, warnings).
Proof.
  intros Hok Hc Hfin Hr Hinf.
  destruct solution as [p|]; [|discriminate].
  assert (Hd : dim a <> 0%nat).
  { destruct target as [t|]; [|discriminate]. unfold get_path_cost in Hr.
    destruct (path_cost_loop_dim _ _ _ _ Hr) as [->|Hd]; [discriminate|exact Hd]. }
  destruct (accepted_tour_cost_np a p Hok Hd) as [x Hx].
  rewrite Hx in Hc. inversion Hc; subst c; clear Hc.
  unfold compute_score. rewrite Hok. result_bind. rewrite Hx, Hr. simpl.
  rewrite py_truediv_np. simpl. rewrite Hinf.
  now rewrite (div_inf_finite x Hfin).
Qed.

(** C10 at work: Scenario A scored against a reference through the missing
    self-loop of node 0. *)
Lemma infinite_reference_scores_zero_witness :
  compute_score scenario_graph (Some [0; 1; 2; 0]) (Some [0; 0]) ∅
    = Ok (zero, ∅).
Proof.
  apply (infinite_reference_scores_zero scenario_graph
           (Some [0; 1; 2; 0]) (Some [0; 0])
           (NpFloat (of_Z 6)) (NpFloat inf)); reflexivity.
Defined.

(** C10 as stated fails: every edge of the candidate is finite, their sum
    overflows, and infinity over infinity is NaN, scored 1.0. *)
Lemma overflowing_candidate_scores_one :
  is_hamiltonian_cycle heavy_graph (Some [0; 1; 2; 0]) = Ok true
  /\ get_path_cost heavy_graph (Some [0; 0]) = Ok (NpFloat inf)
  /\ compute_score heavy_graph (Some [0; 1; 2; 0]) (Some [0; 0]) ∅
     = Ok (one, ∅)
  /\ one <> zero.
Proof. repeat split; try reflexivity. discriminate. Qed.

(** The "no solution found" record carries [None] for its tour: scoring
    against it raises. *)
Lemma none_reference_raises :
  compute_score scenario_graph (Some [0; 1; 2; 0]) None ∅ = Raise TypeError.
Proof. reflexivity. Qed.

(** ** run *)

Section RunProperties.

Variable np_mean : list float -> float.
Variable cls_to_test : ndarray -> outcome (outcome pytour).
Variable test_name : string.
Variable expected_solutions : list pytour.

(** Records that were scored without incident only move the loop
    forward. *)
Lemma run_loop_app (pre rest : list ndarray) :
  forall i scores0 warnings0 scores warnings,
    run_loop cls_to_test test_name expected_solutions i pre scores0 warnings0
      = Ok (inr (scores, warnings)) ->
    run_loop cls_to_test test_name expected_solutions i (pre ++ rest)
      scores0 warnings0
    = run_loop cls_to_test test_name expected_solutions (i + length pre) rest
        scores warnings.
Proof.
  induction pre as [|y pre IH]; intros i scores0 warnings0 scores warnings Hpre;
    simpl in *.
  - inversion Hpre; subst. now rewrite Nat.add_0_r.
  - result_bind.
    destruct (py_getitem expected_solutions (Z.of_nat i)) as [t|]; [|discriminate].
    destruct (cls_to_test y) as [[sol|]|]; try discriminate.
    destruct (compute_score y sol t warnings0) as [[s w]|]; [|discriminate].
    rewrite (IH _ _ _ _ _ Hpre). f_equal. lia.
Qed.

(** C4: when the run reaches a record on which the construction or the
    solution method throws, it returns at once a result of 0.0 percent whose
    message ends with the error; the records that follow and the scores
    gathered so far play no part. *)
Theorem run_fails_fast (pre post : list ndarray) (x : ndarray) (e : string)
    (target : pytour) (scores : list float) (warnings warnings' : gset string) :
  run_loop cls_to_test test_name expected_solutions 0 pre [] warnings
    = Ok (inr (scores, warnings')) ->
  py_getitem expected_solutions (Z.of_nat (length pre)) = Ok target ->
  cls_to_test x = Throws e \/ cls_to_test x = Returns (Throws e) ->
  exists prefix,
    (prefix = "Error raised during instantiation: "
     \/ prefix = "Error raised during test: ")
    /\ run np_mean cls_to_test test_name expected_solutions
         (pre ++ x :: post) warnings
       = Ok {| name := test_name; percent_value := zero;
               message := prefix +:+ e |}.
Proof.
  intros Hpre Htarget Hthrow. unfold run.
  rewrite (run_loop_app pre (x :: post) _ _ _ _ _ Hpre). simpl.
  rewrite Htarget. result_bind.
  destruct Hthrow as [-> | ->];
    [exists "Error raised during instantiation: "
    |exists "Error raised during test: "]; split; auto.
Qed.

End RunProperties.

(** C4 at work: the second of three records has four nodes; the first
    record scored 100, the third is never looked at. *)
Lemma run_fails_fast_witness :
  exists prefix,
    (prefix = "Error raised during instantiation: "
     \/ prefix = "Error raised during test: ")
    /\ run fsum three_node_solver "Performance Test"
         [Some [0; 2; 1; 0]; Some [0; 1; 2; 3; 0]; Some [0; 2; 1; 0]]
         ([scenario_graph] ++ unit_graph4 :: [scenario_graph]) ∅
       = Ok {| name := "Performance Test"; percent_value := zero;
               message := prefix +:+ "list index out of range" |}.
Proof.
  apply (run_fails_fast fsum three_node_solver "Performance Test"
           [Some [0; 2; 1; 0]; Some [0; 1; 2; 3; 0]; Some [0; 2; 1; 0]]
           [scenario_graph] [scenario_graph] unit_graph4
           "list index out of range" (Some [0; 1; 2; 3; 0])
           [mul one (of_Z 100)] ∅ ∅).
  - reflexivity.
  - reflexivity.
  - right. reflexivity.
Defined.

(** ** gen_best_solution *)

Section BestSolution.

Context `{ext : Externals}.

Variable adjacency_matrix : ndarray.

Abbreviation step := (best_step adjacency_matrix).
Abbreviation try := (try_method adjacency_matrix).
Abbreviation start := ((None, PyFloat inf, None) : best).

Lemma best_step_raise (b : best) m e : try m = Raise e -> step b m = b.
Proof. intros He. unfold best_step. destruct b as [[? ?] ?]. now rewrite He. Qed.

Lemma best_step_keep (b : best) m f path cost :
  try m = Ok (f, path, cost) -> py_lt cost b.1.2 = false -> step b m = b.
Proof.
  intros Hm Hlt. unfold best_step. destruct b as [[bp bc] bm]. simpl in *.
  now rewrite Hm, Hlt.
Qed.

Lemma best_step_take (b : best) m f path cost :
  try m = Ok (f, path, cost) -> py_lt cost b.1.2 = true ->
  step b m = (Some path, cost, Some f).
Proof.
  intros Hm Hlt. unfold best_step. destruct b as [[bp bc] bm]. simpl in *.
  now rewrite Hm, Hlt.
Qed.

(** After any number of methods, the best so far is the initial triple or
    what one of them produced, at a cost that is not NaN. *)
Lemma fold_best_origin (l : list tsp_method) :
  let b := fold_left step l start in
  b = start
  \/ exists j m f path cost,
       l !! j = Some m /\ try m = Ok (f, path, cost)
       /\ b = (Some path, cost, Some f) /\ isnan (num_val cost) = false.
Proof.
  induction l as [|m l IH] using rev_ind; simpl; [now left|].
  rewrite fold_left_app. simpl.
  set (b := fold_left step l start) in *.
  assert (Hkeep : step b m = b ->
            step b m = start
            \/ exists j m0 f path cost,
                 (l ++ [m]) !! j = Some m0 /\ try m0 = Ok (f, path, cost)
                 /\ step b m = (Some path, cost, Some f)
                 /\ isnan (num_val cost) = false).
  { intros ->. destruct IH as [?|(j & m0 & f & path & cost & Hj & ? & ? & ?)];
      [now left|right].
    exists j, m0, f, path, cost. repeat split; auto.
    now apply lookup_app_l_Some. }
  destruct (try m) as [[[f path] cost]|e] eqn:Hm.
  2:{ apply Hkeep. eapply best_step_raise; eauto. }
  destruct (py_lt cost b.1.2) eqn:Hlt.
  2:{ apply Hkeep. eapply best_step_keep; eauto. }
  right. exists (length l), m, f, path, cost. repeat split; auto.
  - rewrite lookup_app_r by lia. now rewrite Nat.sub_diag.
  - eapply best_step_take; eauto.
  - apply (ltb_not_nan _ _ Hlt).
Qed.

Lemma fold_best_keep (l : list tsp_method) (b : best) :
  (forall m f path cost,
     m ∈ l -> try m = Ok (f, path, cost) -> py_lt cost b.1.2 = false) ->
  fold_left step l b = b.
Proof.
  induction l as [|m l IH]; intros Hall; simpl; [reflexivity|].
  assert (Hb : step b m = b).
  { destruct (try m) as [[[f path] cost]|e] eqn:Hm.
    - eapply best_step_keep; eauto. eapply Hall; eauto. set_solver.
    - eapply best_step_raise; eauto. }
  rewrite Hb. apply IH. intros m0 f path cost Hin. apply Hall. set_solver.
Qed.

(** C5: a method whose attempt raises leaves the search where it was, so
    the result is that of the other methods; and when no method produces a
    cost below +infinity the result is [(None, inf, None)]. *)
Theorem failing_methods_are_skipped :
  (forall pre m post e,
     try m = Raise e ->
     gen_best_solution adjacency_matrix (MethodsSeq (pre ++ m :: post))
     = gen_best_solution adjacency_matrix (MethodsSeq (pre ++ post)))
  /\
  (forall methods,
     (forall m f path cost,
        m ∈ method_list methods -> try m = Ok (f, path, cost) ->
        py_lt cost (PyFloat inf) = false) ->
     gen_best_solution adjacency_matrix methods = (None, PyFloat inf, None)).
Proof.
  split.
  - intros pre m post e He. unfold gen_best_solution. simpl.
    rewrite !fold_left_app. simpl. now rewrite (best_step_raise _ _ _ He).
  - intros methods Hall. unfold gen_best_solution.
    now apply fold_best_keep.
Qed.

(** C6: the comparison is strict.  If the method at position [k] has a cost
    below +infinity that no method undercuts and no earlier method equals,
    its tour, its cost and its identity are what is returned, whatever
    comes after it.  (The bound is needed: a tour that costs +infinity is
    never below the initial best cost.) *)
Theorem first_minimum_wins (methods : tsp_methods) (k : nat) (m : tsp_method)
    (f : callable) (path : list Z) (cost : pynum) :
  method_list methods !! k = Some m ->
  try m = Ok (f, path, cost) ->
  py_lt cost (PyFloat inf) = true ->
  (forall j m' f' path' cost',
     method_list methods !! j = Some m' -> try m' = Ok (f', path', cost') ->
     py_lt cost' cost = false) ->
  (forall j m' f' path' cost',
     (j < k)%nat ->
     method_list methods !! j = Some m' -> try m' = Ok (f', path', cost') ->
     eqb (num_val cost') (num_val cost) = false) ->
  gen_best_solution adjacency_matrix methods = (Some path, cost, Some f).
Proof.
  intros Hk Hm Hinf Hmin Hfirst. unfold gen_best_solution.
  destruct (list_elem_of_split_length _ _ _ Hk) as (pre & post & Hl & Hlen).
  rewrite Hl in *. clear Hl. rewrite fold_left_app. simpl.
  assert (Htake : step (fold_left step pre start) m = (Some path, cost, Some f)).
  { eapply best_step_take; eauto.
    destruct (fold_best_origin pre)
      as [->|(j & m' & f' & path' & cost' & Hj & Hm' & -> & Hnan)]; [exact Hinf|].
    simpl. apply not_leb_gtb; auto.
    - apply (ltb_not_nan _ _ Hinf).
    - assert (Hjk : (j < k)%nat).
      { apply lookup_lt_Some in Hj. lia. }
      assert (Hj' : (pre ++ m :: post) !! j = Some m')
        by now apply lookup_app_l_Some.
      pose proof (Hmin _ _ _ _ _ Hj' Hm') as Hlt.
      pose proof (Hfirst _ _ _ _ _ Hjk Hj' Hm') as Heq.
      unfold py_lt, ltb, eqb, leb, SFltb, SFeqb, SFleb in *.
      destruct (SFcompare (num_val cost') (num_val cost)) as [[]|];
        congruence. }
  rewrite Htake. apply fold_best_keep.
  intros m' f' path' cost' Hin Hm'. simpl.
  assert (Hin' : m' ∈ pre ++ m :: post) by set_solver.
  apply list_elem_of_lookup in Hin' as [j Hj]. eauto.
Qed.

End BestSolution.

(** C5 at work: an unknown method name between two heuristics changes
    nothing, and on two nodes without a usable edge a heuristic whose tour
    costs +infinity and an object that is not callable leave the sentinel. *)
Lemma failing_methods_are_skipped_witness :
  gen_best_solution scenario_graph
    (MethodsSeq ([TspName "christofides"] ++ TspName "nearest_neighbour"
                   :: [TspName "greedy_tsp"]))
  = gen_best_solution scenario_graph
      (MethodsSeq ([TspName "christofides"] ++ [TspName "greedy_tsp"]))
  /\ gen_best_solution disconnected_graph
       (MethodsSeq [TspName "christofides"; TspOther])
     = (None, PyFloat inf, None).
Proof.
  split.
  - apply (proj1 (failing_methods_are_skipped (ext := sample_externals)
                    scenario_graph)
             [TspName "christofides"] (TspName "nearest_neighbour")
             [TspName "greedy_tsp"] (Exception "no attribute nearest_neighbour")).
    reflexivity.
  - apply (proj2 (failing_methods_are_skipped (ext := sample_externals)
                    disconnected_graph)).
    intros m f path cost Hin Hm. simpl in Hin.
    apply elem_of_cons in Hin as [->|Hin].
    + vm_compute in Hm. inversion Hm. reflexivity.
    + apply elem_of_cons in Hin as [->|Hin]; [discriminate|].
      now apply elem_of_nil in Hin.
Defined.

(** C6 at work: on Scenario A both heuristics find a tour of cost 6; the
    first in the list is kept. *)
Lemma first_minimum_wins_witness :
  gen_best_solution scenario_graph MethodsNone
  = (Some [0; 1; 2; 0], NpFloat (of_Z 6), Some "christofides").
Proof.
  apply (first_minimum_wins (ext := sample_externals) scenario_graph
           MethodsNone 0
           (TspName "christofides")).
  - reflexivity.
  - reflexivity.
  - reflexivity.
  - intros j m' f' path' cost' Hj Hm'.
    destruct j as [|[|j]]; simpl in Hj; inversion Hj; subst;
      vm_compute in Hm'; inversion Hm'; reflexivity.
  - intros j m' f' path' cost' Hj. lia.
Defined.

(** The second heuristic's tour is another one, at the same cost. *)
Lemma scenario_tie :
  try_method scenario_graph (TspName "greedy_tsp")
  = Ok ("greedy_tsp", [0; 2; 1; 0], NpFloat (of_Z 6)).
Proof. reflexivity. Qed.

(** C6 as stated fails when the minimum is +infinity: on two nodes without
    a usable edge both heuristics return a tour, both tours cost +infinity,
    no method undercuts the first one and none comes before it; yet its
    tour is not returned, since +infinity is not below the initial best
    cost. *)
Lemma tie_at_infinity_returns_no_tour :
  method_list MethodsNone !! 0%nat = Some (TspName "christofides")
  /\ try_method disconnected_graph (TspName "christofides")
     = Ok ("christofides", [0; 1; 0], NpFloat inf)
  /\ try_method disconnected_graph (TspName "greedy_tsp")
     = Ok ("greedy_tsp", [0; 1; 0], NpFloat inf)
  /\ (forall j m' f' path' cost',
        method_list MethodsNone !! j = Some m' ->
        try_method disconnected_graph m' = Ok (f', path', cost') ->
        py_lt cost' (NpFloat inf) = false)
  /\ gen_best_solution disconnected_graph MethodsNone
     = (None, PyFloat inf, None)
  /\ gen_best_solution disconnected_graph MethodsNone
     <> (Some [0; 1; 0], NpFloat inf, Some "christofides").
Proof.
  split; [reflexivity|]. split; [reflexivity|]. split; [reflexivity|].
  split; [|split; [reflexivity | discriminate]].
  intros j m' f' path' cost' Hj Hm'.
  destruct j as [|[|j]]; simpl in Hj; inversion Hj; subst;
    vm_compute in Hm'; inversion Hm'; reflexivity.
Qed.

(** ** Graph generation *)

Section GraphGeneration.

Context `{ext : Externals}.

Lemma gen_complete_random_graph_symmetric n seed :
  symmetric (gen_complete_random_graph n seed)
  /\ infinite_diagonal (gen_complete_random_graph n seed).
Proof.
  split.
  - intros i j _ _. simpl. rewrite (Nat.eqb_sym j i).
    destruct (i =? j)%nat; [reflexivity | apply add_comm].
  - intros i _. simpl. now rewrite Nat.eqb_refl.
Qed.

Lemma add_edge_undirected g u v w :
  u <> v -> undirected (adj g) -> undirected (adj (add_edge g u v w)).
Proof.
  intros Huv [Hsym Hloop]. split; simpl.
  - intros x y.
    destruct (decide ((v, u) = (x, y))) as [[= <- <-]|Hne1].
    { rewrite lookup_insert_eq.
      rewrite lookup_insert_ne by congruence. now rewrite lookup_insert_eq. }
    rewrite lookup_insert_ne by exact Hne1.
    destruct (decide ((u, v) = (x, y))) as [[= <- <-]|Hne2].
    { now rewrite !lookup_insert_eq. }
    rewrite lookup_insert_ne by exact Hne2.
    rewrite !lookup_insert_ne by congruence. apply Hsym.
  - intros x. rewrite !lookup_insert_ne by congruence. apply Hloop.
Qed.

Lemma pairs_distinct n : Forall (fun p => p.1 <> p.2) (pairs n).
Proof.
  apply Forall_forall. intros [i j] Hin. simpl.
  apply list_elem_of_In, in_flat_map in Hin as (i' & _ & Hin).
  apply in_map_iff in Hin as (j' & [= <- <-] & Hin).
  apply in_seq in Hin. lia.
Qed.

Lemma fold_edges_undirected (step : nxgraph -> nat * nat -> nxgraph)
    (l : list (nat * nat)) (g : nxgraph) :
  (forall g p, p.1 <> p.2 -> undirected (adj g) ->
     undirected (adj (step g p)) /\ nodes (step g p) = nodes g) ->
  Forall (fun p => p.1 <> p.2) l ->
  undirected (adj g) ->
  undirected (adj (fold_left step l g)) /\ nodes (fold_left step l g) = nodes g.
Proof.
  intros Hstep Hl. revert g.
  induction Hl as [|p l Hp Hl IH]; intros g Hg; simpl; [auto|].
  destruct (Hstep g p Hp Hg) as [Hg' Hn].
  destruct (IH _ Hg') as [? ?]. split; [assumption | congruence].
Qed.

Lemma random_geometric_graph_undirected n seed :
  undirected (adj (random_geometric_graph n seed))
  /\ nodes (random_geometric_graph n seed) = n.
Proof.
  unfold random_geometric_graph.
  apply (fold_edges_undirected _ (pairs n)
           {| nodes := n; pos := geometric_pos n seed; adj := ∅ |}).
  - intros g [u v] Huv Hg. simpl in Huv.
    destruct (within_radius (pos g u) (pos g v)); [|auto].
    split; [now apply add_edge_undirected | reflexivity].
  - apply pairs_distinct.
  - split; intros; simpl; now rewrite !lookup_empty.
Qed.

Lemma gen_geometric_graph_symmetric n seed :
  dim (gen_geometric_graph n seed) = n
  /\ symmetric (gen_geometric_graph n seed)
  /\ infinite_diagonal (gen_geometric_graph n seed).
Proof.
  unfold gen_geometric_graph.
  destruct (random_geometric_graph_undirected n seed) as [Hg Hn].
  set (g0 := random_geometric_graph n seed) in *.
  match goal with
  | |- context [fold_left ?f ?l g0] =>
      destruct (fold_edges_undirected f l g0) as [[Hsym Hloop] Hnodes]
  end.
  - intros g [u v] Huv Hu. simpl in Huv.
    split; [now apply add_edge_undirected | reflexivity].
  - apply pairs_distinct.
  - exact Hg.
  - repeat split.
    + simpl. congruence.
    + intros i j _ _. simpl. now rewrite Hsym.
    + intros i _. simpl. now rewrite Hloop.
Qed.

(** C7: whatever the node count and the seed, both strategies return a
    matrix of that size which is symmetric and whose diagonal is
    +infinity. *)
Theorem generated_graphs_symmetric (n_nodes seed : nat) :
  (exists a,
     gen_random_graph n_nodes seed (GraphMethodName "random") = Ok a
     /\ dim a = n_nodes /\ symmetric a /\ infinite_diagonal a)
  /\
  (exists a,
     gen_random_graph n_nodes seed (GraphMethodName "geometric") = Ok a
     /\ dim a = n_nodes /\ symmetric a /\ infinite_diagonal a).
Proof.
  split.
  - exists (gen_complete_random_graph n_nodes seed).
    destruct (gen_complete_random_graph_symmetric n_nodes seed).
    repeat split; auto.
  - exists (gen_geometric_graph n_nodes seed).
    destruct (gen_geometric_graph_symmetric n_nodes seed) as (? & ? & ?).
    repeat split; auto.
Qed.

End GraphGeneration.

(** ** Dataset staging *)

Lemma append_cons c (s u : string) : String c s +:+ u = String c (s +:+ u).
Proof. reflexivity. Qed.

Lemma length_append (s u : string) :
  String.length (s +:+ u) = (String.length s + String.length u)%nat.
Proof.
  induction s as [|c s IH]; [reflexivity|].
  rewrite append_cons. simpl. now rewrite IH.
Qed.

Lemma append_inj_l (u s1 s2 : string) : s1 +:+ u = s2 +:+ u -> s1 = s2.
Proof.
  revert s2. induction s1 as [|c s1 IH]; intros [|c2 s2] Heq.
  - reflexivity.
  - apply (f_equal String.length) in Heq. change ("" +:+ u) with u in Heq.
    rewrite append_cons in Heq. simpl in Heq. rewrite length_append in Heq.
    lia.
  - apply (f_equal String.length) in Heq. change ("" +:+ u) with u in Heq.
    rewrite append_cons in Heq. simpl in Heq. rewrite length_append in Heq.
    lia.
  - rewrite !append_cons in Heq. inversion Heq; subst. f_equal. now apply IH.
Qed.

Lemma staging_name_inj (i j : nat) : staging_name i = staging_name j -> i = j.
Proof.
  unfold staging_name. intros Heq%append_inj_l. now apply pretty_nat_inj in Heq.
Qed.

Lemma elem_of_staging_names (start n : nat) (s : string) :
  s ∈ staging_names start n <->
  exists i, (i < n)%nat /\ s = staging_name (i + start).
Proof.
  unfold staging_names. rewrite list_elem_of_fmap. split.
  - intros (i & -> & Hi). apply elem_of_seq in Hi. exists i. split; [lia|auto].
  - intros (i & Hi & ->). exists i. split; [auto|]. apply elem_of_seq. lia.
Qed.

Lemma staging_names_NoDup (start n : nat) : NoDup (staging_names start n).
Proof.
  unfold staging_names. apply NoDup_fmap_2_strong; [|apply NoDup_seq].
  intros i j _ _ Heq. apply staging_name_inj in Heq. lia.
Qed.

Lemma staging_names_length (start n : nat) : length (staging_names start n) = n.
Proof. unfold staging_names. now rewrite length_fmap, length_seq. Qed.

Lemma staging_names_app (n1 n2 : nat) :
  staging_names 0 (n1 + n2) = staging_names 0 n1 ++ staging_names n1 n2.
Proof.
  unfold staging_names. rewrite seq_app, fmap_app. f_equal.
  replace (0 + n1)%nat with (n1 + 0)%nat by lia.
  rewrite <- (fmap_add_seq n1 0 n2), <- list_fmap_compose.
  apply list_fmap_ext. intros _ i _. simpl. f_equal. lia.
Qed.

Section Staging.

Context `{ext : Externals}.

(** [choice] picks a position inside the sequence it is given. *)
Hypothesis choice_in_range :
  forall (rs : rng) (len : nat), (0 < len)%nat -> ((choice rs len).1 < len)%nat.

Lemma draw_args_ok (low high : nat) (gen_methods : list graph_method)
    (tsp_meths : tsp_methods) (start : nat) :
  (low < high)%nat -> gen_methods <> [] ->
  forall (indices : list nat) (rs : rng),
  exists args,
    draw_args rs (low, high) gen_methods tsp_meths start indices = Ok args
    /\ args.*2 = (fun i => staging_name (i + start)) <$> indices
    /\ (fun arg => arg.1.1.1.2) <$> args = indices
    /\ Forall (fun arg => arg.1.1.2 ∈ gen_methods) args.
Proof.
  intros Hrange Hne. induction indices as [|i indices IH]; intros rs.
  - exists []. repeat split; constructor.
  - simpl. destruct (Nat.leb_spec high low) as [|_]; [lia|].
    destruct (randint rs low high) as [n_nodes rs1].
    pose proof (choice_in_range rs1 (length gen_methods)) as Hk.
    destruct (choice rs1 (length gen_methods)) as [k rs2]. simpl in Hk.
    assert (Hlen : (0 < length gen_methods)%nat).
    { destruct gen_methods; [contradiction | simpl; lia]. }
    destruct (lookup_lt_is_Some_2 gen_methods k (Hk Hlen)) as [method Hm].
    rewrite Hm.
    destruct (IH rs2) as (args & -> & Hpaths & Hseeds & Hmeths).
    result_bind. eexists. split; [reflexivity|].
    rewrite !fmap_cons, Hpaths, Hseeds. repeat split.
    constructor; [|exact Hmeths].
    simpl. eapply list_elem_of_lookup_2; eauto.
Qed.

Lemma gen_datum_ok (n_nodes seed : nat) (method : graph_method)
    (tsp_meths : tsp_methods) (path : string) (fs : directory) :
  known_strategy method ->
  exists d,
    gen_datum n_nodes seed method tsp_meths (Some path) fs
      = Ok (d, <[path := d]> fs)
    /\ datum_seed d = seed.
Proof.
  intros Hknown. unfold gen_datum.
  assert (exists a, gen_random_graph n_nodes seed method = Ok a) as [a ->].
  { destruct Hknown as [-> | ->]; eexists; reflexivity. }
  result_bind.
  destruct (gen_best_solution a tsp_meths) as [[cycle cost] mth].
  eexists. split; reflexivity.
Qed.

Lemma apply_gen_datum_ok
    (args : list (nat * nat * graph_method * tsp_methods * string)) :
  Forall (fun arg => known_strategy arg.1.1.2) args ->
  NoDup args.*2 ->
  forall fs : directory,
  exists ds fs',
    apply_gen_datum args fs = Ok (ds, fs')
    /\ (forall file, file ∉ args.*2 -> fs' !! file = fs !! file)
    /\ (forall arg, arg ∈ args ->
          exists d, fs' !! arg.2 = Some d /\ datum_seed d = arg.1.1.1.2).
Proof.
  induction args as [|[[[[n_nodes seed] method] meths] path] args IH];
    intros Hknown Hnodup fs.
  - exists [], fs. repeat split; auto. intros arg Hin. now apply elem_of_nil in Hin.
  - apply Forall_cons in Hknown as [Hk Hknown].
    rewrite fmap_cons in Hnodup. apply NoDup_cons in Hnodup as [Hfresh Hnodup].
    simpl in Hk, Hfresh.
    destruct (gen_datum_ok n_nodes seed method meths path fs Hk) as (d & Hd & Hseed).
    destruct (IH Hknown Hnodup (<[path := d]> fs)) as (ds & fs' & Hrest & Hother & Hwritten).
    exists (d :: ds), fs'. simpl. rewrite Hd. result_bind. rewrite Hrest.
    repeat split.
    + intros file Hfile. apply not_elem_of_cons in Hfile as [Hne Hfile].
      rewrite (Hother file Hfile). now apply lookup_insert_ne.
    + intros arg Hin. apply elem_of_cons in Hin as [-> | Hin]; [|auto].
      exists d. simpl. split; [|exact Hseed].
      rewrite (Hother path Hfresh). apply lookup_insert_eq.
Qed.

(** One run on any staging directory: record [i] ends up in the file named
    after [i] plus the number of files that were there, every other file is
    as it was, and the merged dataset holds one entry per file. *)
Lemma gen_dataset_ok (n_data : nat) (n_nodes_range : nat * nat)
    (gen_methods : list graph_method) (tsp_meths : tsp_methods) (seed : nat)
    (fs0 : directory) :
  (n_nodes_range.1 < n_nodes_range.2)%nat ->
  gen_methods <> [] -> Forall known_strategy gen_methods ->
  exists data fs,
    gen_dataset n_data n_nodes_range gen_methods tsp_meths seed false fs0
      = Ok (data, fs)
    /\ (forall i, (i < n_data)%nat ->
          exists d, fs !! staging_name (i + size fs0) = Some d
                    /\ datum_seed d = i)
    /\ (forall file, file ∉ staging_names (size fs0) n_data ->
          fs !! file = fs0 !! file)
    /\ length data = size fs.
Proof.
  destruct n_nodes_range as [low high]. simpl. intros Hrange Hne Hknown.
  unfold gen_dataset.
  destruct (draw_args_ok low high gen_methods tsp_meths (size fs0) Hrange Hne
              (seq 0 n_data) (RandomState seed))
    as (args & -> & Hpaths & Hseeds & Hmeths).
  result_bind.
  destruct (apply_gen_datum_ok args) with (fs := fs0)
    as (ds & fs & -> & Hother & Hwritten).
  { eapply Forall_impl; [exact Hmeths|]. intros arg Hin. simpl in Hin.
    eapply (proj1 (Forall_forall _ _) Hknown); eauto. }
  { rewrite Hpaths. apply staging_names_NoDup. }
  exists (gather_all_data_from_temp_folder fs), fs. repeat split.
  - intros i Hi.
    assert (Hin : i ∈ (fun arg => arg.1.1.1.2) <$> args).
    { rewrite Hseeds. apply elem_of_seq. lia. }
    apply list_elem_of_fmap in Hin as (arg & Hi' & Hin).
    destruct (Hwritten arg Hin) as (d & Hd & Hseed).
    exists d. split; [|congruence].
    assert (Hpath : arg.2 = staging_name (i + size fs0)); [|now rewrite <- Hpath].
    apply list_elem_of_lookup in Hin as [k Hk].
    assert (Hk2 : args.*2 !! k = Some arg.2) by now rewrite list_lookup_fmap, Hk.
    assert (Hk1 : ((fun arg => arg.1.1.1.2) <$> args) !! k = Some i)
      by now rewrite list_lookup_fmap, Hk, Hi'.
    rewrite Hpaths, list_lookup_fmap in Hk2. rewrite Hseeds in Hk1.
    rewrite Hk1 in Hk2. simpl in Hk2. congruence.
  - intros file Hfile. apply Hother. now rewrite Hpaths.
  - unfold gather_all_data_from_temp_folder.
    now rewrite length_fmap, length_map_to_list.
Qed.

Lemma dom_after_run (n start : nat) (fs0 fs : directory) :
  (forall i, (i < n)%nat ->
     exists d, fs !! staging_name (i + start) = Some d /\ datum_seed d = i) ->
  (forall file, file ∉ staging_names start n -> fs !! file = fs0 !! file) ->
  dom fs = dom fs0 ∪ list_to_set (staging_names start n).
Proof.
  intros Hwritten Hother. apply set_eq. intros file.
  rewrite elem_of_union, elem_of_list_to_set, !elem_of_dom.
  destruct (decide (file ∈ staging_names start n)) as [Hin|Hout].
  - split; [auto|]. intros _.
    apply elem_of_staging_names in Hin as (i & Hi & ->).
    destruct (Hwritten i Hi) as (d & -> & _). eauto.
  - rewrite (Hother file Hout). tauto.
Qed.

(** C8: records go to the files named after their index plus the number of
    files already staged.  A first run of [n1] records on an empty
    directory leaves exactly the files 0 .. n1-1; a second run of [n2]
    records on that directory writes record [i] to file [i + n1], leaves
    exactly the files 0 .. n1+n2-1, and every file of the first run is still
    there with its content.  (With 5 and 3: 5 files, then 8.) *)
Theorem staging_files_append (n1 n2 : nat) (range1 range2 : nat * nat)
    (gen_methods1 gen_methods2 : list graph_method)
    (tsp_meths1 tsp_meths2 : tsp_methods) (seed1 seed2 : nat) :
  (range1.1 < range1.2)%nat -> (range2.1 < range2.2)%nat ->
  gen_methods1 <> [] -> Forall known_strategy gen_methods1 ->
  gen_methods2 <> [] -> Forall known_strategy gen_methods2 ->
  exists data1 fs1 data2 fs2,
    gen_dataset n1 range1 gen_methods1 tsp_meths1 seed1 false ∅
      = Ok (data1, fs1)
    /\ gen_dataset n2 range2 gen_methods2 tsp_meths2 seed2 false fs1
       = Ok (data2, fs2)
    /\ dom fs1 = list_to_set (staging_names 0 n1)
    /\ size fs1 = n1 /\ length data1 = n1
    /\ (forall i, (i < n2)%nat ->
          exists d, fs2 !! staging_name (i + n1) = Some d /\ datum_seed d = i)
    /\ dom fs2 = list_to_set (staging_names 0 (n1 + n2))
    /\ size fs2 = (n1 + n2)%nat /\ length data2 = (n1 + n2)%nat
    /\ fs1 ⊆ fs2.
Proof.
  intros Hr1 Hr2 Hne1 Hk1 Hne2 Hk2.
  destruct (gen_dataset_ok n1 range1 gen_methods1 tsp_meths1 seed1 ∅ Hr1 Hne1 Hk1)
    as (data1 & fs1 & Hrun1 & Hw1 & Ho1 & Hlen1).
  rewrite map_size_empty in Hw1, Ho1.
  assert (Hdom1 : dom fs1 = list_to_set (staging_names 0 n1)).
  { rewrite (dom_after_run n1 0 ∅ fs1 Hw1 Ho1), dom_empty_L.
    apply union_empty_l_L. }
  assert (Hsize1 : size fs1 = n1).
  { rewrite <- (size_dom (D := gset string)), Hdom1.
    rewrite size_list_to_set by apply staging_names_NoDup.
    apply staging_names_length. }
  destruct (gen_dataset_ok n2 range2 gen_methods2 tsp_meths2 seed2 fs1 Hr2 Hne2 Hk2)
    as (data2 & fs2 & Hrun2 & Hw2 & Ho2 & Hlen2).
  rewrite Hsize1 in Hw2, Ho2.
  assert (Hdom2 : dom fs2 = list_to_set (staging_names 0 (n1 + n2))).
  { rewrite (dom_after_run n2 n1 fs1 fs2 Hw2 Ho2), Hdom1, staging_names_app.
    now rewrite list_to_set_app_L. }
  assert (Hsize2 : size fs2 = (n1 + n2)%nat).
  { rewrite <- (size_dom (D := gset string)), Hdom2.
    rewrite size_list_to_set by apply staging_names_NoDup.
    apply staging_names_length. }
  exists data1, fs1, data2, fs2. repeat split; auto; try congruence.
  apply map_subseteq_spec. intros file d Hd.
  rewrite Ho2; [exact Hd|]. intros Hnew.
  assert (Hold : file ∈ dom fs1) by (apply elem_of_dom; eauto).
  rewrite Hdom1, elem_of_list_to_set in Hold.
  apply elem_of_staging_names in Hold as (i & Hi & ->).
  apply elem_of_staging_names in Hnew as (j & Hj & Heq).
  apply staging_name_inj in Heq. lia.
Qed.

End Staging.

(** C8 at work, Scenario C: five records, then three more. *)
Lemma staging_files_append_witness :
  exists data1 fs1 data2 fs2,
    gen_dataset 5 (3, 6)%nat default_gen_methods MethodsNone 0 false ∅
      = Ok (data1, fs1)
    /\ gen_dataset 3 (3, 6)%nat default_gen_methods MethodsNone 0 false fs1
       = Ok (data2, fs2)
    /\ dom fs1 = list_to_set (staging_names 0 5)
    /\ size fs1 = 5%nat /\ length data1 = 5%nat
    /\ (forall i, (i < 3)%nat ->
          exists d, fs2 !! staging_name (i + 5) = Some d /\ datum_seed d = i)
    /\ dom fs2 = list_to_set (staging_names 0 (5 + 3))
    /\ size fs2 = (5 + 3)%nat /\ length data2 = (5 + 3)%nat
    /\ fs1 ⊆ fs2.
Proof.
  apply (staging_files_append (ext := sample_externals)).
  - intros rs len Hlen. simpl. apply Nat.mod_upper_bound. lia.
  - simpl. lia.
  - simpl. lia.
  - discriminate.
  - constructor; [left; reflexivity|].
    constructor; [right; reflexivity|]. constructor.
  - discriminate.
  - constructor; [left; reflexivity|].
    constructor; [right; reflexivity|]. constructor.
Defined.

(** The names of Scenario C. *)
Lemma staging_names_scenario :
  staging_names 0 (5 + 3)
  = ["0.pkl"; "1.pkl"; "2.pkl"; "3.pkl"; "4.pkl"; "5.pkl"; "6.pkl"; "7.pkl"].
Proof. reflexivity. Qed.

(** * Further properties of the scorer *)

Lemma nan_to_num_isfinite (x : float) :
  isfinite (nan_to_num x one zero zero) = true.
Proof. destruct x as [[]|[]| |[] ? ?]; reflexivity. Qed.

(** X1: whatever the graph and the tours, a score that [compute_score]
    returns is a finite number: never NaN, never an infinity. *)
Theorem compute_score_is_finite (a : ndarray) (solution target : pytour)
    (warnings warnings' : gset string) (score : float) :
  compute_score a solution target warnings = Ok (score, warnings') ->
  isfinite score = true.
Proof.
  unfold compute_score. intros Hs. result_bind.
  destruct (is_hamiltonian_cycle a solution) as [[]|]; simpl in Hs;
    try discriminate.
  - destruct (get_path_cost a solution) as [c|]; [|discriminate].
    destruct (get_path_cost a target) as [r|]; [|discriminate].
    destruct (py_truediv r c) as [q|]; [|discriminate].
    inversion Hs; subst. apply nan_to_num_isfinite.
  - inversion Hs; subst. reflexivity.
Qed.

Lemma compute_score_is_finite_witness : isfinite one = true.
Proof.
  apply (compute_score_is_finite scenario_graph (Some [0; 1; 2; 0])
           (Some [0; 2; 1; 0]) ∅ ∅ one).
  reflexivity.
Defined.

Lemma score_of_self (x : float) : score_of x x = one.
Proof.
  unfold score_of. destruct x as [[]|[]| |s m e]; try reflexivity.
  now rewrite div_self_finite.
Qed.

(** X2: an accepted tour scored against itself gets exactly 1.0 on a graph
    that has nodes; on the graph without nodes both costs are the integer
    0 and the division raises. *)
Theorem own_tour_scores_one (a : ndarray) (p : list Z) (warnings : gset string) :
  is_hamiltonian_cycle a (Some p) = Ok true ->
  (dim a <> 0%nat ->
   compute_score a (Some p) (Some p) warnings = Ok (one, warnings))
  /\ (dim a = 0%nat ->
      compute_score a (Some p) (Some p) warnings = Raise ZeroDivisionError).
Proof.
  intros Hok. split; intros Hd.
  - destruct (accepted_tour_cost_np a p Hok Hd) as [x Hx].
    unfold compute_score. rewrite Hok. result_bind. rewrite Hx. simpl.
    fold (score_of x x). now rewrite score_of_self.
  - destruct (accepted_tour_cost a p Hok) as (ws & Hws & _ & Hlen & Hcost).
    apply traversed_length in Hws. rewrite edges_length, Hlen, Hd in Hws.
    destruct ws; [|discriminate].
    unfold compute_score. rewrite Hok. result_bind. rewrite Hcost.
    reflexivity.
Qed.

Lemma own_tour_scores_one_witness :
  compute_score scenario_graph (Some [0; 1; 2; 0]) (Some [0; 1; 2; 0]) ∅
    = Ok (one, ∅)
  /\ compute_score (of_rows []) (Some [7]) (Some [7]) ∅
     = Raise ZeroDivisionError.
Proof.
  split.
  - apply (proj1 (own_tour_scores_one scenario_graph [0; 1; 2; 0] ∅ eq_refl)).
    vm_compute. lia.
  - apply (proj2 (own_tour_scores_one (of_rows []) [7] ∅ eq_refl)).
    reflexivity.
Defined.

Lemma remove_dups_length_le (l : list Z) :
  (length (remove_dups l) <= length l)%nat.
Proof.
  induction l as [|x l IH]; simpl; [lia|].
  destruct (decide_rel elem_of x l); simpl; lia.
Qed.

Lemma distinct_count_NoDup (l : list Z) :
  distinct_count l = length l -> NoDup l.
Proof.
  unfold distinct_count. induction l as [|x l IH]; simpl; [constructor|].
  pose proof (remove_dups_length_le l).
  destruct (decide_rel elem_of x l) as [Hin|Hout]; simpl; intros Hlen; [lia|].
  constructor; [exact Hout | apply IH; lia].
Qed.

Lemma accepted_tour_shape a p :
  is_hamiltonian_cycle a (Some p) = Ok true -> shape_ok (dim a) p = true.
Proof.
  intros Hok.
  destruct (shape0 a) as [n|] eqn:Hn.
  2:{ unfold is_hamiltonian_cycle in Hok. rewrite Hn in Hok. discriminate. }
  assert (n = dim a) as ->.
  { unfold shape0, squeezed_shape in Hn.
    destruct (dim a =? 1)%nat; [discriminate | congruence]. }
  rewrite (is_hamiltonian_cycle_unfold a _ p Hn) in Hok.
  destruct (shape_ok (dim a) p); [reflexivity | discriminate].
Qed.

(** X3: when every entry of an accepted tour is a node number in
    [0 .. n-1], the tour is a Hamiltonian cycle indeed: its first [n]
    entries are the nodes [0 .. n-1] in some order, it ends where it
    starts, and every edge it takes has a finite weight. *)
Theorem accepted_in_range_tour_visits_all (a : ndarray) (p : list Z) :
  is_hamiltonian_cycle a (Some p) = Ok true ->
  Forall (fun x => 0 <= x < Z.of_nat (dim a)) p ->
  take (dim a) p ≡ₚ Z.of_nat <$> seq 0 (dim a)
  /\ head p = last p
  /\ exists ws, traversed a (edges p) = Ok ws /\ forallb isfinite ws = true.
Proof.
  intros Hok Hrange.
  pose proof (accepted_tour_shape a p Hok) as Hs. unfold shape_ok in Hs.
  apply andb_true_iff in Hs as [[Hlen Hends]%andb_true_iff Hdistinct].
  apply Nat.eqb_eq in Hlen. apply Nat.eqb_eq in Hdistinct.
  apply bool_decide_eq_true in Hends.
  destruct (accepted_tour_cost a p Hok) as (ws & Hws & Hfin & _ & _).
  split; [|split; [exact Hends | eauto]].
  assert (Htake : length (take (dim a) p) = dim a)
    by (rewrite length_take; lia).
  apply submseteq_length_Permutation.
  - apply NoDup_submseteq.
    + apply distinct_count_NoDup. congruence.
    + intros x Hx. apply list_elem_of_fmap. exists (Z.to_nat x).
      assert (Hin : x ∈ p).
      { apply elem_of_take in Hx as (i & Hi & _).
        eapply list_elem_of_lookup_2; eauto. }
      pose proof (proj1 (Forall_forall _ _) Hrange x Hin) as Hr. simpl in Hr.
      split; [lia|]. apply elem_of_seq. lia.
  - rewrite length_fmap, length_seq. lia.
Qed.

Lemma accepted_in_range_tour_visits_all_witness :
  take 3 [0; 2; 1; 0] ≡ₚ Z.of_nat <$> seq 0 3.
Proof.
  apply (accepted_in_range_tour_visits_all scenario_graph [0; 2; 1; 0]).
  - reflexivity.
  - repeat constructor; vm_compute; congruence.
Defined.

Lemma finite_loop_rejects a pre i j post ws w :
  traversed a pre = Ok ws ->
  getitem2 a i j = Ok w -> isfinite w = false ->
  finite_loop a (pre ++ (i, j) :: post) = Ok false.
Proof.
  intros Hpre Hij Hw. revert ws Hpre.
  induction pre as [|[i0 j0] pre IH]; intros ws Hpre; simpl in *.
  - result_bind. rewrite Hij. simpl. rewrite non_finite_test, Hw. reflexivity.
  - result_bind. destruct (getitem2 a i0 j0) as [w0|]; [|discriminate].
    destruct (isnan w0 || isinf w0 || negb (isfinite w0)); [reflexivity|].
    destruct (traversed a pre) as [ws0|]; [|discriminate].
    now apply (IH ws0).
Qed.

Lemma getitem2_shape0 a i j w : getitem2 a i j = Ok w -> shape0 a = Ok (dim a).
Proof.
  unfold getitem2, shape0, squeezed_shape.
  destruct (dim a =? 1)%nat; [discriminate | reflexivity].
Qed.

(** X4: the scan of the edges stops at the first weight that is NaN or
    infinite: the tour is rejected even if an entry further on is not a
    valid index at all, as long as the lookups before that edge succeed. *)
Theorem first_non_finite_edge_rejects (a : ndarray) (p : list Z)
    (pre post : list (Z * Z)) (i j : Z) (ws : list float) (w : float) :
  edges p = pre ++ (i, j) :: post ->
  traversed a pre = Ok ws ->
  getitem2 a i j = Ok w -> isfinite w = false ->
  is_hamiltonian_cycle a (Some p) = Ok false.
Proof.
  intros He Hpre Hij Hw.
  rewrite (is_hamiltonian_cycle_unfold a _ p (getitem2_shape0 _ _ _ _ Hij)).
  destruct (shape_ok (dim a) p); [|reflexivity].
  rewrite He. eapply finite_loop_rejects; eauto.
Qed.

Lemma first_non_finite_edge_rejects_witness :
  is_hamiltonian_cycle disconnected_graph (Some [0; 1; 5]) = Ok false
  /\ is_hamiltonian_cycle nan_edge_graph (Some [0; 1; 2; 0]) = Ok false.
Proof.
  split.
  - apply (first_non_finite_edge_rejects disconnected_graph [0; 1; 5]
             [] [(1, 5)] 0 1 [] inf); reflexivity.
  - apply (first_non_finite_edge_rejects nan_edge_graph [0; 1; 2; 0]
             [(0, 1)] [(2, 0)] 1 2 [of_Z 1] nan); reflexivity.
Defined.

Lemma norm_index_wrap (n : nat) (i : Z) :
  - Z.of_nat n <= i -> norm_index n (wrap_index n i) = norm_index n i.
Proof.
  intros Hi. unfold wrap_index.
  destruct (Z.ltb_spec i 0) as [Hneg|Hpos]; [|reflexivity].
  unfold norm_index.
  replace ((0 <=? i) && (i <? Z.of_nat n)) with false
    by (symmetry; apply andb_false_iff; left; apply Z.leb_gt; lia).
  replace ((- Z.of_nat n <=? i) && (i <? 0)) with true
    by (symmetry; apply andb_true_iff; split;
        [apply Z.leb_le | apply Z.ltb_lt]; lia).
  replace ((0 <=? i + Z.of_nat n) && (i + Z.of_nat n <? Z.of_nat n)) with true
    by (symmetry; apply andb_true_iff; split;
        [apply Z.leb_le | apply Z.ltb_lt]; lia).
  reflexivity.
Qed.

Lemma getitem2_wrap (a : ndarray) (i j : Z) :
  - Z.of_nat (dim a) <= i -> - Z.of_nat (dim a) <= j ->
  getitem2 a (wrap_index (dim a) i) (wrap_index (dim a) j) = getitem2 a i j.
Proof.
  intros Hi Hj. unfold getitem2, squeezed_shape.
  destruct (dim a =? 1)%nat; [reflexivity|].
  now rewrite !norm_index_wrap.
Qed.

Lemma edges_fmap (f : Z -> Z) (p : list Z) :
  edges (f <$> p) = (fun e => (f e.1, f e.2)) <$> edges p.
Proof.
  induction p as [|x [|y p] IH]; try reflexivity.
  change (edges (f <$> x :: y :: p))
    with ((f x, f y) :: edges (f <$> y :: p)).
  now rewrite IH.
Qed.

Lemma edges_Forall (P : Z -> Prop) (p : list Z) :
  Forall P p -> Forall (fun e => P e.1 /\ P e.2) (edges p).
Proof.
  induction p as [|x [|y p] IH]; intros Hp; try constructor.
  - simpl. split; [now inversion Hp | inversion Hp as [|? ? _ Hp']; now inversion Hp'].
  - apply IH. now inversion Hp.
Qed.

Lemma path_cost_loop_wrap (a : ndarray) (es : list (Z * Z)) (cost : pynum) :
  Forall (fun e => - Z.of_nat (dim a) <= e.1 /\ - Z.of_nat (dim a) <= e.2) es ->
  path_cost_loop a
    ((fun e => (wrap_index (dim a) e.1, wrap_index (dim a) e.2)) <$> es) cost
  = path_cost_loop a es cost.
Proof.
  intros Hes. revert cost.
  induction Hes as [|[i j] es [Hi Hj] Hes IH]; intros cost; [reflexivity|].
  rewrite fmap_cons. simpl in *. rewrite getitem2_wrap by assumption.
  result_bind. destruct (getitem2 a i j) as [w|]; [|reflexivity].
  destruct (isnan w); [reflexivity | apply IH].
Qed.

(** X5: numpy counts a negative index from the end, so a tour written
    with entries not below [-n] costs what the tour of the nodes they stand
    for costs (or fails as it does). *)
Theorem negative_indices_cost_the_same (a : ndarray) (p : list Z) :
  Forall (fun x => - Z.of_nat (dim a) <= x) p ->
  get_path_cost a (Some (wrap_index (dim a) <$> p)) = get_path_cost a (Some p).
Proof.
  intros Hp. unfold get_path_cost. rewrite edges_fmap.
  apply path_cost_loop_wrap. now apply edges_Forall.
Qed.

Lemma negative_indices_cost_the_same_witness :
  get_path_cost scenario_graph (Some (wrap_index 3 <$> [0; -1; -2; 0]))
  = get_path_cost scenario_graph (Some [0; -1; -2; 0]).
Proof.
  apply (negative_indices_cost_the_same scenario_graph [0; -1; -2; 0]).
  repeat constructor; vm_compute; congruence.
Defined.

(** *** Rounding never makes a NaN *)

Lemma shr_1_nonneg (mrs : shr_record) :
  0 <= shr_m mrs -> 0 <= shr_m (shr_1 mrs).
Proof.
  destruct mrs as [m r s]. destruct m as [|[p|p|]|[p|p|]]; simpl; lia.
Qed.

Lemma iter_shr_1_nonneg (p : positive) (mrs : shr_record) :
  0 <= shr_m mrs -> 0 <= shr_m (SpecFloat.iter_pos shr_1 p mrs).
Proof.
  revert mrs. induction p as [p IH|p IH|]; intros mrs Hm; simpl.
  - apply IH, IH, shr_1_nonneg, Hm.
  - apply IH, IH, Hm.
  - apply shr_1_nonneg, Hm.
Qed.

Lemma shr_fexp_nonneg (m e : Z) (l : location) :
  0 <= m -> 0 <= shr_m (shr_fexp prec emax m e l).1.
Proof.
  intros Hm. unfold shr_fexp, shr.
  destruct (fexp prec emax (Zdigits2 m + e) - e) as [|p|p]; simpl;
    try (rewrite shr_m_of_loc; exact Hm).
  apply iter_shr_1_nonneg. now rewrite shr_m_of_loc.
Qed.

Lemma binary_round_aux_not_nan (s : bool) (m e : Z) (l : location) :
  0 <= m -> isnan (binary_round_aux prec emax s m e l) = false.
Proof.
  intros Hm. unfold binary_round_aux.
  pose proof (shr_fexp_nonneg m e l Hm) as H1.
  destruct (shr_fexp prec emax m e l) as [mrs' e']. simpl in H1.
  pose proof (round_nearest_even_bounds (shr_m mrs') (loc_of_shr_record mrs')) as Hr.
  pose proof (shr_fexp_nonneg
                (round_nearest_even (shr_m mrs') (loc_of_shr_record mrs'))
                e' loc_Exact ltac:(lia)) as H2.
  destruct (shr_fexp prec emax _ e' loc_Exact) as [mrs'' e'']. simpl in H2.
  destruct (shr_m mrs'') as [|q|q]; try reflexivity; [|lia].
  destruct (e'' <=? emax - prec); reflexivity.
Qed.

Lemma binary_round_not_nan (s : bool) (m : positive) (e : Z) :
  isnan (binary_round prec emax s m e) = false.
Proof.
  unfold binary_round.
  destruct (shl_align m e (fexp prec emax (Z.pos (digits2_pos m) + e))).
  apply binary_round_aux_not_nan. lia.
Qed.

(** Adding a finite number to anything but NaN does not give NaN. *)
Lemma add_finite_not_nan (x y : float) :
  isnan x = false -> isfinite y = true -> isnan (add x y) = false.
Proof.
  intros Hx Hy. unfold add, SFadd.
  destruct x as [[]|[]| |sx mx ex]; try discriminate;
    destruct y as [[]|[]| |sy my ey]; try discriminate; try reflexivity.
  unfold binary_normalize.
  destruct (cond_Zopp sx (Z.pos (shl_align mx ex (Z.min ex ey)).1)
            + cond_Zopp sy (Z.pos (shl_align my ey (Z.min ex ey)).1));
    try reflexivity; apply binary_round_not_nan.
Qed.

Lemma fold_add_not_nan (ws : list float) (acc : float) :
  isnan acc = false -> forallb isfinite ws = true ->
  isnan (fold_left add ws acc) = false.
Proof.
  revert acc. induction ws as [|w ws IH]; intros acc Hacc Hws; simpl in *.
  - exact Hacc.
  - apply andb_true_iff in Hws as [Hw Hws].
    apply IH; [now apply add_finite_not_nan | exact Hws].
Qed.

(** X6: the cost of an accepted tour is never NaN.  (It can be an
    infinity: finite weights may add up beyond the largest float.) *)
Theorem accepted_tour_cost_not_nan (a : ndarray) (p : list Z) :
  is_hamiltonian_cycle a (Some p) = Ok true ->
  exists c, get_path_cost a (Some p) = Ok c /\ isnan (num_val c) = false.
Proof.
  intros Hok.
  destruct (accepted_tour_cost a p Hok) as (ws & _ & Hfin & _ & Hcost).
  exists (sum_cost ws). split; [exact Hcost|].
  destruct ws as [|w ws]; [reflexivity|].
  apply (fold_add_not_nan (w :: ws) zero eq_refl Hfin).
Qed.

Lemma accepted_tour_cost_not_nan_witness :
  exists c, get_path_cost heavy_graph (Some [0; 1; 2; 0]) = Ok c
            /\ isnan (num_val c) = false.
Proof.
  apply (accepted_tour_cost_not_nan heavy_graph [0; 1; 2; 0]). reflexivity.
Defined.

(** * Further properties of the grading run *)

Lemma py_getitem_nat {A} (l : list A) (i : nat) :
  py_getitem l (Z.of_nat i)
  = match l !! i with Some x => Ok x | None => Raise IndexError end.
Proof.
  unfold py_getitem.
  destruct (Z.ltb_spec (Z.of_nat i) 0) as [|_]; [lia|].
  rewrite Nat2Z.id.
  destruct (Z.leb_spec 0 (Z.of_nat i)) as [_|]; [|lia]. simpl.
  destruct (Z.ltb_spec (Z.of_nat i) (Z.of_nat (length l))) as [Hlt|Hge].
  - reflexivity.
  - rewrite lookup_ge_None_2 by lia. reflexivity.
Qed.

Lemma compute_score_warnings a solution target warnings score warnings' :
  compute_score a solution target warnings = Ok (score, warnings') ->
  (is_hamiltonian_cycle a solution = Ok true /\ warnings' = warnings)
  \/ (is_hamiltonian_cycle a solution = Ok false
      /\ score = zero
      /\ warnings' = {[ not_hamiltonian_warning ]} ∪ warnings).
Proof.
  unfold compute_score. intros Hs. result_bind.
  destruct (is_hamiltonian_cycle a solution) as [[]|]; simpl in Hs;
    try discriminate.
  - left. split; [reflexivity|].
    destruct (get_path_cost a solution) as [c|]; [|discriminate].
    destruct (get_path_cost a target) as [r|]; [|discriminate].
    destruct (py_truediv r c) as [q|]; [|discriminate].
    now inversion Hs.
  - right. now inversion Hs.
Qed.

Lemma warning_added_once (w : string) (ws : gset string) :
  {[ w ]} ∪ ({[ w ]} ∪ ws) = {[ w ]} ∪ ws.
Proof. now rewrite (assoc_L (∪)), (idemp_L (∪)). Qed.

Lemma compute_score_self a p warnings :
  is_hamiltonian_cycle a (Some p) = Ok true -> dim a <> 0%nat ->
  compute_score a (Some p) (Some p) warnings = Ok (one, warnings).
Proof.
  intros Hok Hd.
  destruct (accepted_tour_cost_np a p Hok Hd) as [x Hx].
  unfold compute_score. rewrite Hok. result_bind. rewrite Hx. simpl.
  fold (score_of x x). now rewrite score_of_self.
Qed.

Lemma compute_score_no_reference a p warnings :
  is_hamiltonian_cycle a (Some p) = Ok true ->
  compute_score a (Some p) None warnings = Raise TypeError.
Proof.
  intros Hok.
  destruct (accepted_tour_cost a p Hok) as (ws & _ & _ & _ & Hcost).
  unfold compute_score. rewrite Hok. result_bind.
  unfold get_path_cost in Hcost. now rewrite Hcost.
Qed.

Section RunFurther.

Variable np_mean : list float -> float.
Variable cls_to_test : ndarray -> outcome (outcome pytour).
Variable test_name : string.
Variable expected_solutions : list pytour.

Abbreviation loop := (run_loop cls_to_test test_name expected_solutions).

Abbreviation accepted := (accepted_by cls_to_test).
Abbreviation rejected := (rejected_by cls_to_test).

Lemma run_loop_completed (inputs : list ndarray) :
  forall i scores0 warnings0 scores warnings,
    loop i inputs scores0 warnings0 = Ok (inr (scores, warnings)) ->
    length scores = (length scores0 + length inputs)%nat
    /\ (warnings = warnings0
        \/ warnings = {[ not_hamiltonian_warning ]} ∪ warnings0)
    /\ (Forall accepted inputs -> warnings = warnings0)
    /\ (Exists rejected inputs ->
        warnings = {[ not_hamiltonian_warning ]} ∪ warnings0).
Proof.
  induction inputs as [|a inputs IH];
    intros i scores0 warnings0 scores warnings Hloop; simpl in Hloop.
  - inversion Hloop; subst. simpl.
    split; [lia|]. split; [now left|]. split; [reflexivity|].
    intros Hex. inversion Hex.
  - result_bind.
    destruct (py_getitem expected_solutions (Z.of_nat i)) as [t|];
      [|discriminate].
    destruct (cls_to_test a) as [[sol|]|] eqn:Hcls; try discriminate.
    destruct (compute_score a sol t warnings0) as [[s w]|] eqn:Hscore;
      [|discriminate].
    destruct (IH _ _ _ _ _ Hloop) as (Hlen & Hor & Hall & Hsome).
    rewrite length_app in Hlen. simpl in Hlen.
    split; [simpl; lia|].
    destruct (compute_score_warnings _ _ _ _ _ _ Hscore)
      as [[Hok ->] | (Hno & _ & ->)].
    + split; [assumption|]. split.
      * intros Hacc. apply Hall. now inversion Hacc.
      * intros Hex. apply Hsome. inversion Hex as [? ? Hrej|]; [|assumption].
        destruct Hrej as (sol' & Hcls' & Hno). congruence.
    + rewrite warning_added_once in Hor.
      assert (Hw : warnings = {[ not_hamiltonian_warning ]} ∪ warnings0)
        by (destruct Hor; assumption).
      split; [now right|]. split.
      * intros Hacc. inversion Hacc as [|? ? (sol' & Hcls' & Hok) _].
        congruence.
      * intros _. exact Hw.
Qed.

(** X7: when the loop scores every record, there is one score per record,
    and the message names the warning once however many tours were
    rejected; it is empty when every tour was accepted. *)
Theorem warning_reported_once (inputs : list ndarray)
    (scores : list float) (warnings : gset string) :
  loop 0 inputs [] ∅ = Ok (inr (scores, warnings)) ->
  length scores = length inputs
  /\ (Forall accepted inputs ->
      run np_mean cls_to_test test_name expected_solutions inputs ∅
      = Ok {| name := test_name; percent_value := np_mean scores;
              message := "" |})
  /\ (Exists rejected inputs ->
      run np_mean cls_to_test test_name expected_solutions inputs ∅
      = Ok {| name := test_name; percent_value := np_mean scores;
              message := "Warnings: The solution is not a Hamiltonian cycle." |}).
Proof.
  intros Hloop.
  destruct (run_loop_completed _ _ _ _ _ _ Hloop) as (Hlen & _ & Hall & Hsome).
  split; [exact Hlen|].
  unfold run. rewrite Hloop. result_bind.
  split.
  - intros Hacc. rewrite (Hall Hacc). reflexivity.
  - intros Hrej. rewrite (Hsome Hrej), (right_id_L ∅ (∪)).
    destruct (decide (({[ not_hamiltonian_warning ]} : gset string) = ∅))
      as [Hempty|_].
    + exfalso. revert Hempty. apply non_empty_singleton_L.
    + rewrite elements_singleton. reflexivity.
Qed.

(** X8: an exception raised while a record is scored is not caught: it
    leaves [run], whatever records follow. *)
Theorem scoring_exception_escapes (pre post : list ndarray) (a : ndarray)
    (scores : list float) (warnings : gset string)
    (solution target : pytour) (e : exn) :
  loop 0 pre [] ∅ = Ok (inr (scores, warnings)) ->
  expected_solutions !! length pre = Some target ->
  cls_to_test a = Returns (Returns solution) ->
  compute_score a solution target warnings = Raise e ->
  run np_mean cls_to_test test_name expected_solutions (pre ++ a :: post) ∅
  = Raise e.
Proof.
  intros Hpre Htarget Hcls Hscore.
  unfold run. rewrite (run_loop_app _ _ _ _ _ _ _ _ _ _ Hpre). simpl.
  rewrite py_getitem_nat, Htarget. result_bind.
  now rewrite Hcls, Hscore.
Qed.

(** X9: a record whose reference tour is [None] makes [run] raise
    [TypeError] as soon as the class under test returns a tour that is
    accepted. *)
Theorem missing_reference_raises (pre post : list ndarray) (a : ndarray)
    (scores : list float) (warnings : gset string) (p : list Z) :
  loop 0 pre [] ∅ = Ok (inr (scores, warnings)) ->
  expected_solutions !! length pre = Some None ->
  cls_to_test a = Returns (Returns (Some p)) ->
  is_hamiltonian_cycle a (Some p) = Ok true ->
  run np_mean cls_to_test test_name expected_solutions (pre ++ a :: post) ∅
  = Raise TypeError.
Proof.
  intros Hpre Htarget Hcls Hok.
  unfold run. rewrite (run_loop_app _ _ _ _ _ _ _ _ _ _ Hpre). simpl.
  rewrite py_getitem_nat, Htarget. result_bind.
  now rewrite Hcls, (compute_score_no_reference a p warnings Hok).
Qed.

(** A record on which the class under test returns the reference tour,
    the tour being accepted on a graph that has nodes. *)
Lemma run_loop_reference (inputs : list ndarray) :
  forall i scores warnings,
    (forall k a, inputs !! k = Some a ->
       exists p, expected_solutions !! (i + k)%nat = Some (Some p)
                 /\ cls_to_test a = Returns (Returns (Some p))
                 /\ is_hamiltonian_cycle a (Some p) = Ok true
                 /\ dim a <> 0%nat) ->
    loop i inputs scores warnings
    = Ok (inr (scores ++ replicate (length inputs) hundred, warnings)).
Proof.
  induction inputs as [|a inputs IH]; intros i scores warnings Hall; simpl.
  - now rewrite app_nil_r.
  - destruct (Hall 0%nat a eq_refl) as (p & Hp & Hcls & Hok & Hd).
    rewrite Nat.add_0_r in Hp.
    rewrite py_getitem_nat, Hp. result_bind. rewrite Hcls.
    rewrite (compute_score_self a p warnings Hok Hd).
    fold hundred. rewrite IH.
    + now rewrite <- app_assoc.
    + intros k b Hb. specialize (Hall (S k) b Hb).
      now rewrite Nat.add_succ_r in Hall.
Qed.

(** X10: a class under test that returns the reference tour on every
    record, each of them accepted on a graph that has nodes, gets the mean
    of as many scores of 100 as there are records, and no message. *)
Theorem reference_tours_score_hundred (inputs : list ndarray) :
  (forall k a, inputs !! k = Some a ->
     exists p, expected_solutions !! k = Some (Some p)
               /\ cls_to_test a = Returns (Returns (Some p))
               /\ is_hamiltonian_cycle a (Some p) = Ok true
               /\ dim a <> 0%nat) ->
  run np_mean cls_to_test test_name expected_solutions inputs ∅
  = Ok {| name := test_name;
          percent_value := np_mean (replicate (length inputs) hundred);
          message := "" |}.
Proof.
  intros Hall. unfold run. rewrite (run_loop_reference inputs 0 [] ∅ Hall).
  reflexivity.
Qed.

End RunFurther.

(** X7 at work: the tour of Scenario A is accepted on its graph and
    rejected on both four-node graphs; the warning appears once. *)
Lemma warning_reported_once_witness :
  run fsum stubborn_solver "Performance Test"
    [Some [0; 2; 1; 0]; Some [0; 1; 2; 3; 0]; Some [0; 1; 2; 3; 0]]
    [scenario_graph; unit_graph4; unit_graph4] ∅
  = Ok {| name := "Performance Test";
          percent_value :=
            fsum [hundred; mul zero (of_Z 100); mul zero (of_Z 100)];
          message := "Warnings: The solution is not a Hamiltonian cycle." |}.
Proof.
  apply (warning_reported_once fsum stubborn_solver "Performance Test"
           [Some [0; 2; 1; 0]; Some [0; 1; 2; 3; 0]; Some [0; 1; 2; 3; 0]]
           [scenario_graph; unit_graph4; unit_graph4]
           [hundred; mul zero (of_Z 100); mul zero (of_Z 100)]
           {[ not_hamiltonian_warning ]}).
  - vm_compute. reflexivity.
  - apply Exists_cons_tl, Exists_cons_hd.
    exists (Some [0; 1; 2; 0]). split; reflexivity.
Defined.

(** X8 at work: on a graph of a single node the squeezed matrix has no
    first axis; the [IndexError] leaves [run] after the first record was
    scored. *)
Lemma scoring_exception_escapes_witness :
  run fsum stubborn_solver "Performance Test"
    [Some [0; 2; 1; 0]; Some [0; 0]; Some [0; 2; 1; 0]]
    ([scenario_graph] ++ one_node_graph :: [scenario_graph]) ∅
  = Raise IndexError.
Proof.
  apply (scoring_exception_escapes fsum stubborn_solver "Performance Test"
           [Some [0; 2; 1; 0]; Some [0; 0]; Some [0; 2; 1; 0]]
           [scenario_graph] [scenario_graph] one_node_graph
           [hundred] ∅ (Some [0; 1; 2; 0]) (Some [0; 0])).
  - vm_compute. reflexivity.
  - reflexivity.
  - reflexivity.
  - reflexivity.
Defined.

(** X9 at work: the second record has no reference tour. *)
Lemma missing_reference_raises_witness :
  run fsum three_node_solver "Performance Test"
    [Some [0; 2; 1; 0]; None]
    ([scenario_graph] ++ scenario_graph :: []) ∅
  = Raise TypeError.
Proof.
  apply (missing_reference_raises fsum three_node_solver "Performance Test"
           [Some [0; 2; 1; 0]; None]
           [scenario_graph] [] scenario_graph [hundred] ∅ [0; 1; 2; 0]).
  - vm_compute. reflexivity.
  - reflexivity.
  - reflexivity.
  - reflexivity.
Defined.

(** X10 at work: two records, both answered by the reference tour. *)
Lemma reference_tours_score_hundred_witness :
  run fsum three_node_solver "Performance Test"
    [Some [0; 1; 2; 0]; Some [0; 1; 2; 0]]
    [scenario_graph; scenario_graph] ∅
  = Ok {| name := "Performance Test";
          percent_value := fsum [hundred; hundred];
          message := "" |}.
Proof.
  apply (reference_tours_score_hundred fsum three_node_solver
           "Performance Test" [Some [0; 1; 2; 0]; Some [0; 1; 2; 0]]
           [scenario_graph; scenario_graph]).
  intros [|[|k]] a Ha; simpl in Ha; try discriminate;
    inversion Ha; subst; exists [0; 1; 2; 0];
    (split; [reflexivity|]); (split; [reflexivity|]);
    (split; [reflexivity|]); discriminate.
Defined.

(** * Further properties of the generator *)

Section GeometricGraph.

Context `{ext : Externals}.

Lemma elem_of_pairs (n i j : nat) :
  (i, j) ∈ pairs n <-> (i < j)%nat /\ (j < n)%nat.
Proof.
  unfold pairs. rewrite list_elem_of_In, in_flat_map. split.
  - intros (i' & Hi' & Hin). apply in_map_iff in Hin as (j' & [= <- <-] & Hj).
    apply in_seq in Hi'. apply in_seq in Hj. lia.
  - intros [Hij Hj]. exists i. split; [apply in_seq; lia|].
    apply in_map_iff. exists j. split; [reflexivity | apply in_seq; lia].
Qed.

Lemma fold_keeps_pos (step : nxgraph -> nat * nat -> nxgraph)
    (l : list (nat * nat)) :
  (forall g p, pos (step g p) = pos g /\ nodes (step g p) = nodes g) ->
  forall g, pos (fold_left step l g) = pos g
            /\ nodes (fold_left step l g) = nodes g.
Proof.
  intros Hstep. induction l as [|p l IH]; intros g; simpl; [auto|].
  destruct (IH (step g p)) as [-> ->]. apply Hstep.
Qed.

Lemma random_geometric_graph_pos n seed :
  pos (random_geometric_graph n seed) = geometric_pos n seed
  /\ nodes (random_geometric_graph n seed) = n.
Proof.
  unfold random_geometric_graph.
  match goal with
  | |- context [fold_left ?f ?l ?g] => apply (fold_keeps_pos f l)
  end.
  intros g [u v]. destruct (within_radius (pos g u) (pos g v)); auto.
Qed.

(** Edges added with a weight for pairs [(u, v)] with [u < v]: each of
    them ends with the weight of its pair, in both directions. *)
Lemma fold_weighted_edges (dist : nat -> nat -> float)
    (l : list (nat * nat)) :
  Forall (fun p => (p.1 < p.2)%nat) l ->
  forall g i j,
    (i, j) ∈ l ->
    let g' := fold_left (fun g '(i, j) => add_edge g i j (Some (dist i j))) l g in
    adj g' !! (i, j) = Some (Some (dist i j))
    /\ adj g' !! (j, i) = Some (Some (dist i j)).
Proof.
  induction l as [|[u v] l IH] using rev_ind; intros Hl g i j Hin;
    [now apply elem_of_nil in Hin|].
  apply Forall_app in Hl as [Hl Huv]. apply Forall_inv in Huv.
  simpl in Huv. simpl. rewrite fold_left_app. simpl.
  destruct (decide ((i, j) = (u, v))) as [[= -> ->]|Hne].
  - rewrite lookup_insert_ne by (intros [= ? ?]; lia).
    now rewrite !lookup_insert_eq.
  - apply elem_of_app in Hin as [Hin|Hin];
      [|apply list_elem_of_singleton in Hin; congruence].
    assert (Hij : (i < j)%nat).
    { rewrite Forall_forall in Hl. exact (Hl _ Hin). }
    destruct (IH Hl g i j Hin) as [H1 H2].
    split.
    + rewrite lookup_insert_ne by (intros [= ? ?]; lia).
      rewrite lookup_insert_ne by congruence. exact H1.
    + rewrite lookup_insert_ne by congruence.
      rewrite lookup_insert_ne by (intros [= ? ?]; lia). exact H2.
Qed.

(** X11: the matrix of a geometric graph is complete, whatever the radius
    test of [random_geometric_graph] decided: the entry of two distinct
    nodes [i < j] is the distance of their places in both directions,
    computed from [i] to [j]. *)
Theorem geometric_graph_is_complete (n_nodes seed i j : nat) :
  (i < j)%nat -> (j < n_nodes)%nat ->
  let pos := geometric_pos n_nodes seed in
  let dist := np_hypot (sub (pos i).1 (pos j).1) (sub (pos i).2 (pos j).2) in
  entry (gen_geometric_graph n_nodes seed) i j = dist
  /\ entry (gen_geometric_graph n_nodes seed) j i = dist.
Proof.
  intros Hij Hj. simpl. unfold gen_geometric_graph.
  destruct (random_geometric_graph_pos n_nodes seed) as [Hpos Hn].
  rewrite Hpos, Hn.
  set (dist := fun i j : nat =>
         np_hypot (sub (geometric_pos n_nodes seed i).1
                       (geometric_pos n_nodes seed j).1)
                  (sub (geometric_pos n_nodes seed i).2
                       (geometric_pos n_nodes seed j).2)).
  destruct (fold_weighted_edges dist (pairs n_nodes)) with
    (g := random_geometric_graph n_nodes seed) (i := i) (j := j) as [H1 H2].
  - apply Forall_forall. intros [u v] Huv. apply elem_of_pairs in Huv.
    simpl. lia.
  - apply elem_of_pairs. lia.
  - unfold to_numpy_array. simpl. simpl in H1, H2.
    unfold dist in H1, H2. now rewrite H1, H2.
Qed.

End GeometricGraph.

(** X11 at work: nodes 0 and 3 sit three units apart, beyond the radius;
    the matrix still holds their distance. *)
Lemma geometric_graph_is_complete_witness :
  within_radius (geometric_pos 4 0 0) (geometric_pos 4 0 3) = false
  /\ entry (gen_geometric_graph 4 0) 0 3 = of_Z 3
  /\ entry (gen_geometric_graph 4 0) 3 0 = of_Z 3.
Proof.
  split; [reflexivity|].
  apply (geometric_graph_is_complete (ext := sample_externals) 4 0 0 3); lia.
Defined.

Lemma ltb_trans (x y z : float) :
  ltb x y = true -> ltb y z = true -> ltb x z = true.
Proof. intros Hxy Hyz. eapply leb_ltb_trans; [apply ltb_leb|]; eassumption. Qed.

Lemma ltb_asym (x y : float) : ltb x y = true -> ltb y x = false.
Proof.
  intros Hxy. destruct (ltb y x) eqn:Hyx; [|reflexivity].
  pose proof (ltb_trans _ _ _ Hxy Hyx) as Hxx. now rewrite ltb_irrefl in Hxx.
Qed.

Section BestSolutionFurther.

Context `{ext : Externals}.

Variable adjacency_matrix : ndarray.

Abbreviation step := (best_step adjacency_matrix).
Abbreviation try := (try_method adjacency_matrix).
Abbreviation start := ((None, PyFloat inf, None) : best).

(** One step keeps the best so far or replaces it by something strictly
    cheaper. *)
Lemma best_step_below (b : best) m :
  step b m = b \/ py_lt (step b m).1.2 b.1.2 = true.
Proof.
  destruct (try m) as [[[f path] cost]|e] eqn:Hm.
  - destruct (py_lt cost b.1.2) eqn:Hlt.
    + right. now rewrite (best_step_take _ _ _ _ _ _ Hm Hlt).
    + left. eapply best_step_keep; eauto.
  - left. eapply best_step_raise; eauto.
Qed.

Lemma fold_best_below (l : list tsp_method) :
  forall b : best,
    fold_left step l b = b \/ py_lt (fold_left step l b).1.2 b.1.2 = true.
Proof.
  induction l as [|m l IH]; intros b; simpl; [now left|].
  destruct (IH (step b m)) as [Heq|Hlt];
    destruct (best_step_below b m) as [Hb|Hb].
  - left. congruence.
  - right. now rewrite Heq.
  - right. rewrite Hb in Hlt. rewrite Hb. exact Hlt.
  - right. unfold py_lt in *. eapply ltb_trans; eassumption.
Qed.

Lemma fold_best_optimal (l : list tsp_method) :
  forall (b : best) m f path cost,
    m ∈ l -> try m = Ok (f, path, cost) ->
    py_lt cost (fold_left step l b).1.2 = false.
Proof.
  induction l as [|m0 l IH]; intros b m f path cost Hin Hm;
    [now apply elem_of_nil in Hin|].
  simpl. apply elem_of_cons in Hin as [->|Hin]; [|eapply IH; eauto].
  destruct (fold_best_below l (step b m0)) as [Heq|Hlt].
  - rewrite Heq. destruct (py_lt cost b.1.2) eqn:Hcb.
    + rewrite (best_step_take _ _ _ _ _ _ Hm Hcb). apply ltb_irrefl.
    + now rewrite (best_step_keep _ _ _ _ _ _ Hm Hcb).
  - destruct (py_lt cost b.1.2) eqn:Hcb.
    + rewrite (best_step_take _ _ _ _ _ _ Hm Hcb) in Hlt |- *.
      simpl in Hlt. now apply ltb_asym.
    + rewrite (best_step_keep _ _ _ _ _ _ Hm Hcb) in Hlt |- *.
      destruct (py_lt cost (fold_left step l b).1.2) eqn:Hc; [|reflexivity].
      unfold py_lt in *. rewrite (ltb_trans _ _ _ Hc Hlt) in Hcb.
      discriminate.
Qed.

Lemma try_method_cost m f path cost :
  try m = Ok (f, path, cost) ->
  traveling_salesman_problem adjacency_matrix f = Returns path
  /\ get_path_cost adjacency_matrix (Some path) = Ok cost.
Proof.
  unfold try_method. intros Hm. result_bind.
  destruct (match m with
            | TspName s =>
                match nx_getattr s with
                | Some f => Ok f
                | None => Raise (Exception ("no attribute " +:+ s))
                end
            | TspCallable f => Ok f
            | TspOther => Raise (Exception "The method must be callable.")
            end) as [func|]; [|discriminate].
  destruct (traveling_salesman_problem adjacency_matrix func) as [c|] eqn:Hc;
    [|discriminate].
  simpl in Hm.
  destruct (path_cost_loop adjacency_matrix (edges c) (PyInt 0)) as [x|] eqn:Hx;
    [|discriminate].
  inversion Hm; subst. auto.
Qed.

(** X12: no method of the list that produced a tour did so at a cost
    strictly below the cost returned. *)
Theorem best_solution_is_cheapest (methods : tsp_methods) (m : tsp_method)
    (f : callable) (path : list Z) (cost : pynum) :
  m ∈ method_list methods ->
  try m = Ok (f, path, cost) ->
  py_lt cost (gen_best_solution adjacency_matrix methods).1.2 = false.
Proof. intros Hin Hm. unfold gen_best_solution. eapply fold_best_optimal; eauto. Qed.

Lemma best_solution_found (methods : tsp_methods) :
  gen_best_solution adjacency_matrix methods = (None, PyFloat inf, None)
  \/ exists path cost f,
       gen_best_solution adjacency_matrix methods
       = (Some path, cost, Some f)
       /\ get_path_cost adjacency_matrix (Some path) = Ok cost
       /\ py_lt cost (PyFloat inf) = true.
Proof.
  unfold gen_best_solution.
  destruct (fold_best_origin adjacency_matrix (method_list methods))
    as [Hstart | (j & m & f & path & cost & Hj & Hm & Hb & _)];
    [now left|].
  right. exists path, cost, f.
  destruct (try_method_cost _ _ _ _ Hm) as [Htsp Hcost].
  repeat (split; [assumption|]).
  destruct (fold_best_below (method_list methods) start) as [Heq|Hlt].
  - rewrite Hb in Heq. discriminate.
  - now rewrite Hb in Hlt.
Qed.

(** X13: what is returned belongs together: either nothing was found and
    the triple is [(None, inf, None)], or path, cost and method come from
    one method of the list, the cost is the cost of the path on the matrix
    and is below +infinity. *)
Theorem best_solution_is_coherent (methods : tsp_methods) :
  gen_best_solution adjacency_matrix methods = (None, PyFloat inf, None)
  \/ exists j m f path cost,
       method_list methods !! j = Some m
       /\ try m = Ok (f, path, cost)
       /\ gen_best_solution adjacency_matrix methods
          = (Some path, cost, Some f)
       /\ traveling_salesman_problem adjacency_matrix f = Returns path
       /\ get_path_cost adjacency_matrix (Some path) = Ok cost
       /\ py_lt cost (PyFloat inf) = true.
Proof.
  unfold gen_best_solution.
  destruct (fold_best_origin adjacency_matrix (method_list methods))
    as [Hstart | (j & m & f & path & cost & Hj & Hm & Hb & _)];
    [now left|].
  right. exists j, m, f, path, cost.
  destruct (try_method_cost _ _ _ _ Hm) as [Htsp Hcost].
  repeat (split; [assumption|]).
  destruct (fold_best_below (method_list methods) start) as [Heq|Hlt].
  - rewrite Hb in Heq. discriminate.
  - now rewrite Hb in Hlt.
Qed.

(** X14: methods added at the end of the list leave the result as it was
    or replace it by a strictly cheaper one. *)
Theorem more_methods_never_worse (l extra : list tsp_method) :
  gen_best_solution adjacency_matrix (MethodsSeq (l ++ extra))
  = gen_best_solution adjacency_matrix (MethodsSeq l)
  \/ py_lt (gen_best_solution adjacency_matrix (MethodsSeq (l ++ extra))).1.2
           (gen_best_solution adjacency_matrix (MethodsSeq l)).1.2 = true.
Proof.
  unfold gen_best_solution. simpl. rewrite fold_left_app.
  apply fold_best_below.
Qed.

End BestSolutionFurther.

(** X12 at work: the second heuristic's tour costs 6 as well, not less. *)
Lemma best_solution_is_cheapest_witness :
  py_lt (NpFloat (of_Z 6)) (gen_best_solution scenario_graph MethodsNone).1.2
  = false.
Proof.
  apply (best_solution_is_cheapest (ext := sample_externals) scenario_graph
           MethodsNone (TspName "greedy_tsp") "greedy_tsp" [0; 2; 1; 0]).
  - simpl. apply elem_of_cons. right. apply elem_of_cons. now left.
  - reflexivity.
Defined.

(** ** gen_datum *)

Section DatumFurther.

Context `{ext : Externals}.

(** X15: a datum holds the matrix its strategy produced for its seed; its
    cost is the cost of its path on that matrix and is below +infinity, or
    it has no path, the cost +infinity and the method name "None".  The
    datum is stored under the path given, if one is given. *)
Theorem datum_is_coherent (n_nodes seed : nat) (method : graph_method)
    (tsp_meths : tsp_methods) (save_path : option string)
    (fs fs' : directory) (d : datum) :
  gen_datum n_nodes seed method tsp_meths save_path fs = Ok (d, fs') ->
  gen_random_graph n_nodes seed method = Ok (adjacency_matrix d)
  /\ datum_seed d = seed
  /\ ((best_path d = None /\ path_cost d = PyFloat inf
       /\ datum_tsp_method d = "None")
      \/ exists cycle,
           best_path d = Some cycle
           /\ get_path_cost (adjacency_matrix d) (Some cycle)
              = Ok (path_cost d)
           /\ py_lt (path_cost d) (PyFloat inf) = true)
  /\ fs' = match save_path with Some p => <[p := d]> fs | None => fs end.
Proof.
  unfold gen_datum. intros Hd.
  destruct (gen_random_graph n_nodes seed method) as [a|]; [|discriminate].
  result_bind.
  pose proof (best_solution_found a tsp_meths) as Hbest.
  destruct (gen_best_solution a tsp_meths) as [[cycle cost] mth].
  assert (Hshape : forall d0 : datum,
            d0 = {| adjacency_matrix := a; best_path := cycle;
                    path_cost := cost; datum_seed := seed;
                    graph_init_method := method;
                    datum_tsp_method :=
                      match mth with
                      | Some f => callable_name f
                      | None => "None"
                      end |} ->
            Ok a = Ok (adjacency_matrix d0) /\ datum_seed d0 = seed
            /\ ((best_path d0 = None /\ path_cost d0 = PyFloat inf
                 /\ datum_tsp_method d0 = "None")
                \/ exists cycle0,
                     best_path d0 = Some cycle0
                     /\ get_path_cost (adjacency_matrix d0) (Some cycle0)
                        = Ok (path_cost d0)
                     /\ py_lt (path_cost d0) (PyFloat inf) = true)).
  { intros d0 ->. simpl. split; [reflexivity|]. split; [reflexivity|].
    destruct Hbest as [[= -> -> ->] | (path & c & f & [= -> -> ->] & Hc & Hlt)].
    - now left.
    - right. exists path. auto. }
  destruct save_path as [p|]; inversion Hd; subst;
    (destruct (Hshape _ eq_refl) as (H1 & H2 & H3);
     split; [exact H1|]; split; [exact H2|]; split; [exact H3|reflexivity]).
Qed.

(** X16: a strategy name is looked up before anything else.  Any name
    other than "random" and "geometric" raises [ValueError] with the name
    in the message, whatever the solvers and the path, before anything is
    solved or saved.  With one of the two names, at least two nodes and no
    path to save to, a datum is returned whose matrix has [n_nodes] rows,
    and the directory is left as it was. *)
Theorem graph_method_names (n_nodes seed : nat) (s : string)
    (tsp_meths : tsp_methods) (save_path : option string) (fs : directory) :
  (s = "random" \/ s = "geometric" -> (2 <= n_nodes)%nat ->
   exists d,
     gen_datum n_nodes seed (GraphMethodName s) tsp_meths None fs
     = Ok (d, fs)
     /\ dim (adjacency_matrix d) = n_nodes)
  /\ (s <> "random" -> s <> "geometric" ->
      gen_datum n_nodes seed (GraphMethodName s) tsp_meths save_path fs
      = Raise (ValueError ("Unknown method: " +:+ s))).
Proof.
  split.
  - intros Hs _.
    assert (exists a, gen_random_graph n_nodes seed (GraphMethodName s) = Ok a
                      /\ dim a = n_nodes) as (a & Ha & Hdim).
    { destruct Hs as [-> | ->]; eexists; (split; [reflexivity|]).
      - reflexivity.
      - apply (gen_geometric_graph_symmetric n_nodes seed). }
    unfold gen_datum. rewrite Ha. result_bind.
    destruct (gen_best_solution a tsp_meths) as [[cycle cost] mth].
    eexists. split; [reflexivity | exact Hdim].
  - intros H1 H2. unfold gen_datum, gen_random_graph.
    destruct (decide (s = "random")) as [|_]; [contradiction|].
    destruct (decide (s = "geometric")) as [|_]; [contradiction|].
    reflexivity.
Qed.

End DatumFurther.

(** X15 at work: a three-node random graph, stored as [0.pkl]. *)
Lemma datum_is_coherent_witness :
  exists d fs',
    gen_datum 3 0 (GraphMethodName "random") MethodsNone (Some "0.pkl") ∅
    = Ok (d, fs')
    /\ best_path d = Some [0; 1; 2; 0]
    /\ get_path_cost (adjacency_matrix d) (Some [0; 1; 2; 0])
       = Ok (path_cost d)
    /\ fs' = {[ "0.pkl" := d ]}.
Proof.
  eexists _, _. split; [reflexivity|].
  split; [reflexivity|].
  match goal with
  | |- get_path_cost (adjacency_matrix ?d) _ = _ /\ ?fs' = _ =>
      destruct (datum_is_coherent (ext := sample_externals) 3 0
                  (GraphMethodName "random") MethodsNone (Some "0.pkl")
                  ∅ fs' d eq_refl)
        as (_ & _ & [[Hnone _] | (cycle & Hpath & Hcost & _)] & Hfs)
  end.
  - discriminate Hnone.
  - inversion Hpath; subst cycle. split; [exact Hcost | exact Hfs].
Defined.

(** X16 at work: a name that is not a strategy, and one that is. *)
Lemma graph_method_names_witness :
  gen_datum 3 0 (GraphMethodName "grid") MethodsNone (Some "0.pkl") ∅
  = Raise (ValueError "Unknown method: grid")
  /\ exists d,
       gen_datum 3 0 (GraphMethodName "geometric") MethodsNone None ∅
       = Ok (d, ∅)
       /\ dim (adjacency_matrix d) = 3%nat.
Proof.
  split.
  - apply (proj2 (graph_method_names (ext := sample_externals) 3 0 "grid"
                    MethodsNone (Some "0.pkl") ∅)); discriminate.
  - apply (proj1 (graph_method_names (ext := sample_externals) 3 0 "geometric"
                    MethodsNone None ∅)); [now right | lia].
Defined.

(** ** gen_dataset *)

Lemma elem_of_gathered (fs : directory) (d : datum) :
  d ∈ gather_all_data_from_temp_folder fs <-> exists file, fs !! file = Some d.
Proof.
  unfold gather_all_data_from_temp_folder. rewrite list_elem_of_fmap. split.
  - intros ([file d'] & -> & Hin). apply elem_of_map_to_list in Hin. eauto.
  - intros [file Hfile]. exists (file, d). split; [reflexivity|].
    now apply elem_of_map_to_list.
Qed.

Section DatasetFurther.

Context `{ext : Externals}.

Lemma gen_dataset_data (n_data : nat) (n_nodes_range : nat * nat)
    (gen_methods : list graph_method) (tsp_meths : tsp_methods) (seed : nat)
    (rm_temp_folder : bool) (fs0 fs : directory) (data : list datum) :
  gen_dataset n_data n_nodes_range gen_methods tsp_meths seed rm_temp_folder fs0
    = Ok (data, fs) ->
  data = gather_all_data_from_temp_folder fs.
Proof.
  unfold gen_dataset. intros Hrun. result_bind.
  destruct (draw_args _ _ _ _ _ _) as [args|]; [|discriminate].
  destruct (apply_gen_datum _ _) as [[ds fs1]|]; [|discriminate].
  now inversion Hrun.
Qed.

(** X19: the range and the strategies are looked at when the first record
    is drawn: a range without a number in it raises [ValueError], and so
    does an empty sequence of strategies. *)
Theorem arguments_checked_on_first_draw (n_data : nat)
    (n_nodes_range : nat * nat) (gen_methods : list graph_method)
    (tsp_meths : tsp_methods) (seed : nat) (rm_temp_folder : bool)
    (fs0 : directory) :
  (0 < n_data)%nat ->
  ((n_nodes_range.2 <= n_nodes_range.1)%nat ->
   gen_dataset n_data n_nodes_range gen_methods tsp_meths seed
     rm_temp_folder fs0
   = Raise (ValueError "low >= high"))
  /\ ((n_nodes_range.1 < n_nodes_range.2)%nat -> gen_methods = [] ->
      exists msg,
        gen_dataset n_data n_nodes_range gen_methods tsp_meths seed
          rm_temp_folder fs0
        = Raise (ValueError msg)).
Proof.
  intros Hn. destruct n_data as [|n]; [lia|].
  destruct n_nodes_range as [low high]. simpl.
  split.
  - intros Hrange. unfold gen_dataset.
    change (seq 0 (S n)) with (0%nat :: seq 1 n). simpl.
    destruct (Nat.leb_spec high low) as [_|]; [reflexivity | lia].
  - intros Hrange ->. unfold gen_dataset.
    change (seq 0 (S n)) with (0%nat :: seq 1 n). simpl.
    destruct (Nat.leb_spec high low) as [|_]; [lia|].
    destruct (randint (RandomState seed) low high) as [n_nodes rs].
    destruct (choice rs 0) as [k rs'].
    eexists. reflexivity.
Qed.

(** [choice] picks a position inside the sequence it is given. *)
Hypothesis choice_in_range :
  forall (rs : rng) (len : nat), (0 < len)%nat -> ((choice rs len).1 < len)%nat.

(** X17: without [rm_temp_folder], what a run returns holds every record
    that was staged before under a name the run does not write, and one
    record for each of its own indices. *)
Theorem earlier_records_are_returned (n_data : nat)
    (n_nodes_range : nat * nat) (gen_methods : list graph_method)
    (tsp_meths : tsp_methods) (seed : nat) (fs0 : directory) :
  (n_nodes_range.1 < n_nodes_range.2)%nat ->
  gen_methods <> [] -> Forall known_strategy gen_methods ->
  exists data fs,
    gen_dataset n_data n_nodes_range gen_methods tsp_meths seed false fs0
      = Ok (data, fs)
    /\ (forall file d,
          fs0 !! file = Some d ->
          file ∉ staging_names (size fs0) n_data -> d ∈ data)
    /\ (forall i, (i < n_data)%nat ->
          exists d, d ∈ data /\ datum_seed d = i).
Proof.
  intros Hrange Hne Hknown.
  destruct (gen_dataset_ok choice_in_range n_data n_nodes_range gen_methods
              tsp_meths seed fs0 Hrange Hne Hknown)
    as (data & fs & Hrun & Hwritten & Hother & _).
  exists data, fs. split; [exact Hrun|].
  rewrite (gen_dataset_data _ _ _ _ _ _ _ _ _ Hrun).
  split.
  - intros file d Hfile Hout. apply elem_of_gathered. exists file.
    now rewrite (Hother file Hout).
  - intros i Hi. destruct (Hwritten i Hi) as (d & Hd & Hseed).
    exists d. split; [|exact Hseed]. apply elem_of_gathered. eauto.
Qed.

(** X18: the files of a run are numbered from the count of the files
    present, not past the highest number present: a file that was already
    staged under one of the run's names is overwritten, and the run
    returns fewer records than were present plus [n_data]. *)
Theorem stale_file_is_overwritten (n_data : nat)
    (n_nodes_range : nat * nat) (gen_methods : list graph_method)
    (tsp_meths : tsp_methods) (seed : nat) (fs0 : directory)
    (i : nat) (old : datum) :
  (n_nodes_range.1 < n_nodes_range.2)%nat ->
  gen_methods <> [] -> Forall known_strategy gen_methods ->
  (i < n_data)%nat ->
  fs0 !! staging_name (i + size fs0) = Some old ->
  exists data fs,
    gen_dataset n_data n_nodes_range gen_methods tsp_meths seed false fs0
      = Ok (data, fs)
    /\ (exists d, fs !! staging_name (i + size fs0) = Some d
                  /\ datum_seed d = i)
    /\ (size fs < size fs0 + n_data)%nat
    /\ (length data < size fs0 + n_data)%nat.
Proof.
  intros Hrange Hne Hknown Hi Hold.
  destruct (gen_dataset_ok choice_in_range n_data n_nodes_range gen_methods
              tsp_meths seed fs0 Hrange Hne Hknown)
    as (data & fs & Hrun & Hwritten & Hother & Hlen).
  exists data, fs. split; [exact Hrun|]. split; [exact (Hwritten i Hi)|].
  assert (Hsize : (size fs < size fs0 + n_data)%nat); [|split; lia].
  pose proof (dom_after_run n_data (size fs0) fs0 fs Hwritten Hother) as Hdom.
  rewrite <- (size_dom fs), Hdom, size_union_alt, size_dom.
  apply Nat.add_lt_mono_l.
  set (names := list_to_set (staging_names (size fs0) n_data) : gset string).
  assert (Hnames : size names = n_data).
  { unfold names. rewrite size_list_to_set by apply staging_names_NoDup.
    apply staging_names_length. }
  apply (Nat.lt_le_trans _ (size names)); [apply subset_size | lia].
  assert (Hin : staging_name (i + size fs0) ∈ names).
  { unfold names. apply elem_of_list_to_set, elem_of_staging_names. eauto. }
  assert (Hdom0 : staging_name (i + size fs0) ∈ dom fs0).
  { apply elem_of_dom. eauto. }
  split.
  - intros x Hx. apply elem_of_difference in Hx. tauto.
  - intros Hsub. specialize (Hsub _ Hin).
    apply elem_of_difference in Hsub. tauto.
Qed.

End DatasetFurther.

Lemma sample_choice_in_range (rs len : nat) :
  (0 < len)%nat -> (rs mod len < len)%nat.
Proof. intros Hlen. apply Nat.mod_upper_bound. lia. Qed.

(** X19 at work: the range from 5 to 5 holds no number. *)
Lemma arguments_checked_on_first_draw_witness :
  gen_dataset 1 (5, 5)%nat default_gen_methods MethodsNone 0 false ∅
  = Raise (ValueError "low >= high").
Proof.
  apply (arguments_checked_on_first_draw (ext := sample_externals) 1
           (5, 5)%nat default_gen_methods MethodsNone 0 false ∅);
    simpl; lia.
Defined.

(** X17 at work: a record left under another name is returned with the
    two new ones. *)
Lemma earlier_records_are_returned_witness :
  exists data fs,
    gen_dataset 2 (3, 6)%nat default_gen_methods MethodsNone 0 false
      {[ "first.pkl" := earlier_datum ]}
    = Ok (data, fs)
    /\ earlier_datum ∈ data.
Proof.
  destruct (earlier_records_are_returned (ext := sample_externals)
              sample_choice_in_range 2 (3, 6)%nat default_gen_methods
              MethodsNone 0 {[ "first.pkl" := earlier_datum ]})
    as (data & fs & Hrun & Hold & _).
  - simpl. lia.
  - discriminate.
  - constructor; [left; reflexivity|].
    constructor; [right; reflexivity|]. constructor.
  - exists data, fs. split; [exact Hrun|].
    apply (Hold "first.pkl"); [reflexivity|].
    intros Hin. vm_compute in Hin.
    repeat (apply elem_of_cons in Hin as [Hin|Hin]; [discriminate|]).
    now apply elem_of_nil in Hin.
Defined.

(** X18 at work: the folder holds one file, named [1.pkl]; the run numbers
    its only record 1 and the folder still holds one file. *)
Lemma stale_file_is_overwritten_witness :
  exists data fs,
    gen_dataset 1 (3, 6)%nat default_gen_methods MethodsNone 0 false
      {[ "1.pkl" := earlier_datum ]}
    = Ok (data, fs)
    /\ (exists d, fs !! "1.pkl" = Some d /\ datum_seed d = 0%nat)
    /\ (size fs < 1 + 1)%nat
    /\ (length data < 1 + 1)%nat.
Proof.
  destruct (stale_file_is_overwritten (ext := sample_externals)
              sample_choice_in_range 1 (3, 6)%nat default_gen_methods
              MethodsNone 0 {[ "1.pkl" := earlier_datum ]} 0 earlier_datum)
    as (data & fs & Hrun & Hfile & Hsize & Hlen).
  - simpl. lia.
  - discriminate.
  - constructor; [left; reflexivity|].
    constructor; [right; reflexivity|]. constructor.
  - lia.
  - rewrite map_size_singleton. reflexivity.
  - rewrite map_size_singleton in Hfile, Hsize, Hlen.
    exists data, fs. split; [exact Hrun|].
    split; [exact Hfile|]. split; [exact Hsize | exact Hlen].
Defined.

(** * Further properties of the library check *)

Lemma substring_prefix (pat post : string) :
  String.substring 0 (String.length pat) (pat +:+ post) = pat.
Proof.
  induction pat as [|c pat IH]; simpl.
  - now destruct post.
  - now rewrite IH.
Qed.

Lemma substring_middle (pre pat post : string) :
  String.substring (String.length pre) (String.length pat)
    (pre +:+ pat +:+ post) = pat.
Proof.
  induction pre as [|c pre IH];
    [exact (substring_prefix pat post) | simpl; exact IH].
Qed.

(** [pat in s] holds as soon as [pat] occurs somewhere in [s]. *)
Lemma str_contains_occurrence (pre pat post : string) :
  pat <> "" -> str_contains pat (pre +:+ pat +:+ post) = true.
Proof.
  intros Hpat. unfold str_contains.
  destruct (String.index 0 pat (pre +:+ pat +:+ post)) eqn:Hidx;
    [reflexivity|].
  exfalso.
  apply (String.index_correct3 0 (String.length pre) _ _ Hidx Hpat);
    [lia | apply substring_middle].
Qed.

Lemma union_swap (A B C : gset string) : B ∪ (A ∪ C) = A ∪ B ∪ C.
Proof. rewrite (assoc_L (∪)). f_equal. apply (comm_L (∪)). Qed.

Section LibraryCheck.

Variable os : os_view.
Variable test_name : string.
Variable path : string.
Variable not_allowed_libraries : list string.
Variable excluded_files : list string.
Variable excluded_folders : list string.
Variable set_order : gset string -> list string.

Abbreviation check_file :=
  (CheckNotAllowedLibrariesTestCase.check_file os not_allowed_libraries).
Abbreviation check_files :=
  (CheckNotAllowedLibrariesTestCase.check_files os not_allowed_libraries).
Abbreviation gather_files :=
  (CheckNotAllowedLibrariesTestCase.gather_files os path excluded_files
     excluded_folders).
Abbreviation lib_run :=
  (CheckNotAllowedLibrariesTestCase.run os test_name path
     not_allowed_libraries excluded_files excluded_folders set_order).
Abbreviation warning := CheckNotAllowedLibrariesTestCase.not_allowed_warning.

Lemma check_file_fold (content : string) (libs : list string) :
  forall (check : bool) (warnings : gset string),
    fold_left
      (fun '(check, warnings) lib =>
         if str_contains ("import " +:+ lib) content
         then (false, {[ warning lib ]} ∪ warnings)
         else (check, warnings))
      libs (check, warnings)
    = (match flagged libs content with [] => check | _ => false end,
       list_to_set (warning <$> flagged libs content) ∪ warnings).
Proof.
  induction libs as [|lib libs IH]; intros check warnings; simpl.
  - now rewrite (left_id_L ∅ (∪)).
  - unfold flagged in *. simpl.
    destruct (str_contains ("import " +:+ lib) content); rewrite IH.
    + simpl. f_equal.
      * now destruct (List.filter _ libs).
      * apply union_swap.
    + reflexivity.
Qed.

Lemma check_file_spec (file_path content : string) (warnings : gset string) :
  read_text os file_path = Returns content ->
  check_file file_path warnings
  = Ok (match flagged not_allowed_libraries content with
        | [] => true | _ => false end,
        list_to_set (warning <$> flagged not_allowed_libraries content)
        ∪ warnings).
Proof.
  intros Hread. unfold CheckNotAllowedLibrariesTestCase.check_file.
  rewrite Hread. f_equal. apply check_file_fold.
Qed.



(** X21: a library is found wherever the text "import <library>" occurs
    in the file, whatever stands before and after it. *)
Theorem import_text_is_flagged_anywhere (file_path before lib after : string)
    (warnings : gset string) :
  read_text os file_path = Returns (before +:+ ("import " +:+ lib) +:+ after) ->
  lib ∈ not_allowed_libraries ->
  exists warnings',
    check_file file_path warnings = Ok (false, warnings')
    /\ warning lib ∈ warnings'.
Proof.
  intros Hread Hlib. rewrite (check_file_spec _ _ warnings Hread).
  assert (Hin : lib ∈ flagged not_allowed_libraries
                        (before +:+ ("import " +:+ lib) +:+ after)).
  { unfold flagged. apply list_elem_of_In, filter_In.
    split; [now apply list_elem_of_In|].
    apply str_contains_occurrence. discriminate. }
  assert (Hcheck : match flagged not_allowed_libraries
                            (before +:+ ("import " +:+ lib) +:+ after) with
                    | [] => true | _ => false end = false).
  { destruct (flagged _ _); [now apply elem_of_nil in Hin | reflexivity]. }
  rewrite Hcheck. eexists. split; [reflexivity|].
  apply elem_of_union_l, elem_of_list_to_set, list_elem_of_fmap. eauto.
Qed.

Lemma gather_filenames (root : string) (filenames : list string) :
  forall files,
    fold_left
      (fun files filename =>
         if str_endswith filename ".py"
            && negb (bool_decide (filename ∈ excluded_files))
         then files ++ [path_join os root filename]
         else files)
      filenames files
    = files
      ++ (path_join os root
          <$> List.filter
                (fun filename =>
                   str_endswith filename ".py"
                   && negb (bool_decide (filename ∈ excluded_files)))
                filenames).
Proof.
  induction filenames as [|filename filenames IH]; intros files; simpl.
  - now rewrite app_nil_r.
  - rewrite IH.
    destruct (str_endswith filename ".py"
              && negb (bool_decide (filename ∈ excluded_files)));
      [|reflexivity].
    now rewrite <- app_assoc.
Qed.

Lemma gather_walk (triples : list (string * list string * list string)) :
  forall files,
    fold_left
      (fun files '(root, dirs, filenames) =>
         if CheckNotAllowedLibrariesTestCase.excluded_root os excluded_folders
              root
         then files
         else
           fold_left
             (fun files filename =>
                if str_endswith filename ".py"
                   && negb (bool_decide (filename ∈ excluded_files))
                then files ++ [path_join os root filename]
                else files)
             filenames files)
      triples files
    = files
      ++ flat_map
           (fun '(root, dirs, filenames) =>
              if CheckNotAllowedLibrariesTestCase.excluded_root os
                   excluded_folders root
              then []
              else path_join os root
                   <$> List.filter
                         (fun filename =>
                            str_endswith filename ".py"
                            && negb (bool_decide (filename ∈ excluded_files)))
                         filenames)
           triples.
Proof.
  induction triples as [|[[root dirs] filenames] triples IH]; intros files;
    simpl.
  - now rewrite app_nil_r.
  - rewrite IH.
    destruct (CheckNotAllowedLibrariesTestCase.excluded_root os
                excluded_folders root); [reflexivity|].
    now rewrite gather_filenames, <- app_assoc.
Qed.

(** X22: a path that is a file is gathered as it is, whatever its name; in
    a folder, the files gathered are those of the folders that are not
    excluded whose name ends in ".py" and is not excluded; any other path
    raises [ValueError]. *)
Theorem gathered_files_respect_exclusions :
  (isfile os path = true -> gather_files = Ok [path])
  /\ (isfile os path = false -> isdir os path = true ->
      exists files,
        gather_files = Ok files
        /\ forall f,
             f ∈ files <->
             exists root dirs filenames filename,
               (root, dirs, filenames) ∈ walk os path
               /\ CheckNotAllowedLibrariesTestCase.excluded_root os
                    excluded_folders root = false
               /\ filename ∈ filenames
               /\ str_endswith filename ".py" = true
               /\ (filename ∉ excluded_files)
               /\ f = path_join os root filename)
  /\ (isfile os path = false -> isdir os path = false ->
      gather_files = Raise (ValueError ("Invalid path: '" +:+ path +:+ "'."))).
Proof.
  unfold CheckNotAllowedLibrariesTestCase.gather_files.
  split; [now intros ->|]. split; [|now intros -> ->].
  intros -> ->. eexists. split; [reflexivity|].
  intros f. rewrite gather_walk. simpl.
  rewrite list_elem_of_In, in_flat_map. split.
  - intros ([[root dirs] filenames] & Hin & Hf).
    destruct (CheckNotAllowedLibrariesTestCase.excluded_root os
                excluded_folders root) eqn:Hroot; [destruct Hf|].
    apply list_elem_of_In, list_elem_of_fmap in Hf as (filename & -> & Hf).
    apply list_elem_of_In, filter_In in Hf as [Hf Hcond].
    apply andb_true_iff in Hcond as [Hpy Hex].
    apply negb_true_iff, bool_decide_eq_false in Hex.
    exists root, dirs, filenames, filename.
    repeat split; auto; now apply list_elem_of_In.
  - intros (root & dirs & filenames & filename
            & Hin & Hroot & Hf & Hpy & Hex & ->).
    exists (root, dirs, filenames). split; [now apply list_elem_of_In|].
    rewrite Hroot. apply list_elem_of_In, list_elem_of_fmap.
    exists filename. split; [reflexivity|].
    apply list_elem_of_In, filter_In. split; [now apply list_elem_of_In|].
    apply andb_true_iff. split; [exact Hpy|].
    now apply negb_true_iff, bool_decide_eq_false.
Qed.

End LibraryCheck.


(** X21 at work: a comment that mentions the import. *)
Lemma import_text_is_flagged_anywhere_witness :
  exists warnings',
    CheckNotAllowedLibrariesTestCase.check_file sample_os
      ["networkx"; "scipy"] "project/tests/test_solver.py" ∅
    = Ok (false, warnings')
    /\ "The library 'networkx' is not allowed." ∈ warnings'.
Proof.
  apply (import_text_is_flagged_anywhere sample_os ["networkx"; "scipy"]
           "project/tests/test_solver.py" "# we do not " "networkx" " here" ∅).
  - reflexivity.
  - apply elem_of_cons. now left.
Defined.

(** X22 at work: [solver.py] is gathered from the project folder. *)
Lemma gathered_files_respect_exclusions_witness :
  exists files,
    CheckNotAllowedLibrariesTestCase.gather_files sample_os "project"
      ["setup.py"] ["tests"] = Ok files
    /\ "project/solver.py" ∈ files.
Proof.
  destruct (proj1 (proj2 (gathered_files_respect_exclusions sample_os
                            "project" ["setup.py"] ["tests"]))
              eq_refl eq_refl) as (files & Hfiles & Hiff).
  exists files. split; [exact Hfiles|]. apply Hiff.
  exists "project", ["tests"], ["solver.py"; "setup.py"; "notes.txt"],
    "solver.py".
  split; [apply elem_of_cons; now left|].
  split; [reflexivity|].
  split; [apply elem_of_cons; now left|].
  split; [reflexivity|].
  split; [|reflexivity].
  intros Hin. apply elem_of_cons in Hin as [Hin|Hin]; [discriminate|].
  now apply elem_of_nil in Hin.
Defined.

(** * Further properties of the test runner *)

Section TesterFurther.

Variable test_case : Type.
Variable run_test : test_case -> result (TestResult * test_case).

Lemma run_tests_appends (todo : list test_case) :
  forall done results done' results',
    TesterClass.run_tests test_case run_test todo done results
    = Ok (done', results') ->
    exists new,
      results' = results ++ new
      /\ length new = length todo
      /\ length done' = (length done + length todo)%nat.
Proof.
  induction todo as [|test todo IH]; intros done results done' results' Hrun;
    simpl in Hrun.
  - inversion Hrun; subst. exists []. rewrite app_nil_r. auto.
  - result_bind. destruct (run_test test) as [[r test']|]; [|discriminate].
    destruct (IH _ _ _ _ Hrun) as (new & -> & Hnew & Hdone).
    exists (r :: new). rewrite <- app_assoc. simpl.
    rewrite length_app in Hdone. simpl in Hdone.
    repeat split; [now rewrite Hnew | lia].
Qed.

(** X23: [run] never empties the results: it returns the results the
    tester already held followed by one result for each of its tests, and
    keeps as many tests as it had. *)
Theorem results_accumulate (t t' : TesterClass.Tester test_case)
    (returned : list TestResult) :
  TesterClass.run test_case run_test t = Ok (returned, t') ->
  TesterClass.results test_case t' = returned
  /\ length (TesterClass.tests test_case t')
     = length (TesterClass.tests test_case t)
  /\ exists new,
       returned = TesterClass.results test_case t ++ new
       /\ length new = length (TesterClass.tests test_case t).
Proof.
  unfold TesterClass.run. intros Hrun. result_bind.
  destruct (TesterClass.run_tests test_case run_test
              (TesterClass.tests test_case t) []
              (TesterClass.results test_case t)) as [[tests' results']|] eqn:Hloop;
    [|discriminate].
  inversion Hrun; subst. simpl.
  destruct (run_tests_appends _ _ _ _ _ Hloop) as (new & -> & Hnew & Hdone).
  split; [reflexivity|]. split; [exact Hdone|]. eauto.
Qed.

End TesterFurther.

(** X23 at work: a tester that holds one result from an earlier run and
    two tests returns three results. *)
Lemma results_accumulate_witness :
  exists returned t',
    TesterClass.run string passing_test
      {| TesterClass.tests := ["PEP8"; "Performance"];
         TesterClass.results :=
           [ {| name := "PEP8"; percent_value := zero; message := "" |} ] |}
    = Ok (returned, t')
    /\ TesterClass.results string t' = returned
    /\ length returned = 3%nat.
Proof.
  eexists _, _. split; [reflexivity|].
  match goal with
  | |- TesterClass.results string ?t' = ?returned /\ _ =>
      destruct (results_accumulate string passing_test
                  {| TesterClass.tests := ["PEP8"; "Performance"];
                     TesterClass.results :=
                       [ {| name := "PEP8"; percent_value := zero;
                            message := "" |} ] |}
                  t' returned eq_refl) as (Hresults & _ & _)
  end.
  split; [exact Hresults | reflexivity].
Defined.
